(** * YNWA Cards: the statistics updater ([stats-updater.js])

    A shallow embedding of [SoccerStatsManager]: the snapshot cache kept in
    [localStorage], the feed client, the scorer-anchored merge of the two
    feeds, the derived fields, the ranking, the trend, the page, the
    refresh button and [initialize]; and of the proxy function of
    [soccer-stats.js].

    JavaScript values are embedded as the inductive type [value]; code that
    may throw returns a [result]; the insertion-ordered [Map] of players is an
    association list; the clock, the network and [localStorage] are passed
    explicitly. *)

From Stdlib Require Import ZArith List String Ascii Bool Lia Permutation Sorted.
From Stdlib Require Import DecimalString DecimalPos DecimalN.
Import ListNotations.
Open Scope string_scope.
Open Scope list_scope.
Open Scope Z_scope.

Set Warnings "-register-all".

(** ** JavaScript values *)

(** The JSON documents that the program reads, and the values it builds from
    them.  Numbers are the integers (the counts of the feeds and the
    millisecond clock), to be read as JavaScript numbers inside the safe
    integer range; [VNaN] is the only other number that the program can
    produce without arithmetic on non-integers. *)
Inductive value : Type :=
| VUndef
| VNull
| VNaN
| VBool (b : bool)
| VNum (n : Z)
| VStr (s : string)
| VArr (items : list value)
| VObj (fields : list (string * value)).

Inductive exn : Type :=
| TypeError
| ApiError (status : Z)
| NetworkError
| SyntaxError
| SecurityError
| QuotaExceededError.

(** The outcome of a piece of code: a value, an exception, or [Unmodelled]
    when the code leaves the integer fragment (string concatenation or [NaN]
    arithmetic on statistics that are not numbers, where the order produced
    by [Array.prototype.sort] is implementation-defined). *)
Inductive result (A : Type) : Type :=
| Return (a : A)
| Throw (e : exn)
| Unmodelled.

Arguments Return {A} a.
Arguments Throw {A} e.
Arguments Unmodelled {A}.

Definition bind {A B : Type} (c : result A) (k : A -> result B) : result B :=
  match c with
  | Return a => k a
  | Throw e => Throw e
  | Unmodelled => Unmodelled
  end.

Notation "x <- c ;; k" := (bind c (fun x => k))
  (at level 61, c at next level, right associativity).

(** [try { c } catch (e) { h }] *)
Definition try_catch {A : Type} (c : result A) (h : exn -> result A) : result A :=
  match c with
  | Throw e => h e
  | other => other
  end.

(** ToBoolean. *)
Definition truthy (v : value) : bool :=
  match v with
  | VUndef | VNull | VNaN => false
  | VBool b => b
  | VNum n => negb (n =? 0)
  | VStr s => negb (String.eqb s "")
  | VArr _ | VObj _ => true
  end.

(** [a || b] *)
Definition js_or (a b : value) : value := if truthy a then a else b.

Fixpoint lookup (k : string) (fields : list (string * value)) : value :=
  match fields with
  | [] => VUndef
  | (k', v) :: rest => if String.eqb k k' then v else lookup k rest
  end.

(** Property read [v.k] (and [v[0]], written [prop v "0"]).  Reading a
    property of [undefined] or [null] throws a [TypeError]; a missing
    property is [undefined].  The program reads no built-in property
    ([length] and the like), so arrays and strings only answer to ["0"]. *)
Definition prop (v : value) (k : string) : result value :=
  match v with
  | VUndef | VNull => Throw TypeError
  | VObj fields => Return (lookup k fields)
  | VArr items =>
      if String.eqb k "0" then Return (nth 0 items VUndef) else Return VUndef
  | VStr s =>
      if String.eqb k "0" then
        match s with
        | EmptyString => Return VUndef
        | String c _ => Return (VStr (String c EmptyString))
        end
      else Return VUndef
  | VNaN | VBool _ | VNum _ => Return VUndef
  end.

(** [arr.forEach(f)], threading the state that [f] mutates.  Only an array
    has a callable [forEach]; on anything else the call is a [TypeError]. *)
Fixpoint forEach_items {S : Type} (f : S -> value -> result S)
    (items : list value) (s : S) : result S :=
  match items with
  | [] => Return s
  | item :: rest => s' <- f s item ;; forEach_items f rest s'
  end.

Definition forEach {S : Type} (arr : value) (f : S -> value -> result S)
    (s : S) : result S :=
  match arr with
  | VArr items => forEach_items f items s
  | _ => Throw TypeError
  end.

(** SameValueZero, the key equality of [Map].  Objects and arrays are
    compared by identity; every object of a parsed JSON document is a fresh
    allocation, so two of them met as keys are never the same. *)
Definition same_value_zero (a b : value) : bool :=
  match a, b with
  | VUndef, VUndef => true
  | VNull, VNull => true
  | VNaN, VNaN => true
  | VBool x, VBool y => Bool.eqb x y
  | VNum x, VNum y => x =? y
  | VStr x, VStr y => String.eqb x y
  | _, _ => false
  end.

(** [JSON.parse(JSON.stringify(v))]: [undefined] properties are dropped,
    [undefined] array elements and [NaN] become [null]. *)
Fixpoint json_roundtrip (v : value) : value :=
  match v with
  | VNaN => VNull
  | VArr items =>
      VArr (map (fun x => match x with
                          | VUndef => VNull
                          | _ => json_roundtrip x
                          end) items)
  | VObj fields =>
      VObj ((fix go (fs : list (string * value)) : list (string * value) :=
               match fs with
               | [] => []
               | (k, VUndef) :: rest => go rest
               | (k, x) :: rest => (k, json_roundtrip x) :: go rest
               end) fields)
  | other => other
  end.

(** ** Configuration *)

Record config : Type := {
  API_KEY : string;
  LEAGUES : list (string * Z);
  SEASON : Z;
  CACHE_DURATION : Z;
  TOP_PLAYERS_COUNT : nat
}.

Definition CONFIG : config := {|
  API_KEY := "YOUR_API_KEY_HERE";
  LEAGUES := [("PREMIER_LEAGUE", 39); ("LA_LIGA", 140)];
  SEASON := 2025;
  CACHE_DURATION := 24 * 60 * 60 * 1000;
  TOP_PLAYERS_COUNT := 10
|}.

(** ** The snapshot cache in [localStorage] *)

(** What [JSON.parse] makes of the stored text, as far as the program looks
    at it: [timestamp] is the number that [data.timestamp] counts as in
    [Date.now() - data.timestamp] ([None] for [NaN], as when the property
    is missing), [players] is [data.players]. *)
Record snapshot : Type := {
  timestamp : option Z;
  players : value
}.

Inductive stored : Type :=
| Missing                  (* getItem returns null *)
| EmptyText                (* the empty string *)
| Unparseable              (* JSON.parse throws *)
| ParsedNull               (* the text "null" *)
| Parsed (data : snapshot).

Record localStorage : Type := {
  accessible : bool;       (* false: every access throws SecurityError *)
  quota_left : bool;       (* false: setItem throws QuotaExceededError *)
  ynwa_stats_cache : stored
}.

Definition getItem (ls : localStorage) : result stored :=
  if accessible ls then Return (ynwa_stats_cache ls) else Throw SecurityError.

Definition setItem (ls : localStorage) (s : stored) : result localStorage :=
  if accessible ls then
    if quota_left ls then
      Return {| accessible := true; quota_left := true; ynwa_stats_cache := s |}
    else Throw QuotaExceededError
  else Throw SecurityError.

Definition removeItem (ls : localStorage) : result localStorage :=
  if accessible ls then
    Return {| accessible := true; quota_left := quota_left ls;
              ynwa_stats_cache := Missing |}
  else Throw SecurityError.

(** [Date.now() - data.timestamp < CONFIG.CACHE_DURATION]; a comparison
    with [NaN] is false. *)
Definition fresh (cfg : config) (now : Z) (data : snapshot) : bool :=
  match timestamp data with
  | Some t => now - t <? CACHE_DURATION cfg
  | None => false
  end.

(** The [try] block of [loadCache]; falling out of it is [Return None]. *)
Definition loadCache_try (cfg : config) (now : Z) (ls : localStorage)
    : result (option snapshot) :=
  cached <- getItem ls ;;
  match cached with
  | Missing | EmptyText => Return None
  | Unparseable => Throw SyntaxError
  | ParsedNull => Throw TypeError
  | Parsed data => if fresh cfg now data then Return (Some data) else Return None
  end.

(** [loadCache()]: [None] is [null]. *)
Definition loadCache (cfg : config) (now : Z) (ls : localStorage)
    : option snapshot :=
  match loadCache_try cfg now ls with
  | Return r => r
  | Throw _ | Unmodelled => None
  end.

(** [saveCache(data)]: the storage afterwards. *)
Definition saveCache (now : Z) (data : value) (ls : localStorage)
    : localStorage :=
  let cacheData := {| timestamp := Some now; players := json_roundtrip data |} in
  match setItem ls (Parsed cacheData) with
  | Return ls' => ls'
  | Throw _ | Unmodelled => ls
  end.

(** ** The feed client *)

Record request : Type := {
  endpoint : string;
  league_param : Z;
  season_param : Z;
  rapidapi_key : string
}.

(** What [fetch] and [response.json()] come to: the promise of [fetch]
    rejects, or a response arrives with a status and a body that is JSON
    ([Some]) or not ([None]). *)
Inductive response : Type :=
| Rejected
| Answered (status : Z) (body : option value).

Definition network : Type := request -> response.

Definition response_ok (status : Z) : bool :=
  (200 <=? status) && (status <=? 299).

(** The request of [fetchFromAPI(endpoint, leagueId)] (lines 54-61): the
    URL with the league and [CONFIG.SEASON], and [CONFIG.API_KEY] in the
    header [x-rapidapi-key]. *)
Definition request_for (cfg : config) (endpoint : string) (leagueId : Z)
    : request :=
  {| endpoint := endpoint; league_param := leagueId;
     season_param := SEASON cfg; rapidapi_key := API_KEY cfg |}.

Definition fetchFromAPI (cfg : config) (net : network) (endpoint : string)
    (leagueId : Z) : result value :=
  match net (request_for cfg endpoint leagueId) with
  | Rejected => Throw NetworkError
  | Answered status body =>
      if response_ok status then
        match body with
        | None => Throw SyntaxError
        | Some data => prop data "response"
        end
      else Throw (ApiError status)
  end.

Definition getTopScorers (cfg : config) (net : network) (leagueId : Z)
    : result value :=
  try_catch (fetchFromAPI cfg net "players/topscorers" leagueId)
            (fun _ => Return (VArr [])).

Definition getTopAssists (cfg : config) (net : network) (leagueId : Z)
    : result value :=
  try_catch (fetchFromAPI cfg net "players/topassists" leagueId)
            (fun _ => Return (VArr [])).

(** ** Player records and the map of players *)

Record PlayerRecord : Type := {
  id : value;
  name : value;
  photo : value;
  team : value;
  league : string;
  position : value;
  goals : value;
  assists : value;
  appearances : value;
  rating : value
}.

(** [playerData.assists = a] *)
Definition set_assists (p : PlayerRecord) (a : value) : PlayerRecord :=
  {| id := id p; name := name p; photo := photo p; team := team p;
     league := league p; position := position p; goals := goals p;
     assists := a; appearances := appearances p; rating := rating p |}.

(** The [Map] [allPlayers], in insertion order. *)
Definition PlayerMap : Type := list (value * PlayerRecord).

Fixpoint map_has (m : PlayerMap) (k : value) : bool :=
  match m with
  | [] => false
  | (k', _) :: rest => same_value_zero k' k || map_has rest k
  end.

Fixpoint map_get (m : PlayerMap) (k : value) : option PlayerRecord :=
  match m with
  | [] => None
  | (k', p) :: rest => if same_value_zero k' k then Some p else map_get rest k
  end.

(** [m.set(k, p)]: a present key keeps its place, a new one goes last. *)
Fixpoint map_set (m : PlayerMap) (k : value) (p : PlayerRecord) : PlayerMap :=
  match m with
  | [] => [(k, p)]
  | (k', p') :: rest =>
      if same_value_zero k' k then (k', p) :: rest
      else (k', p') :: map_set rest k p
  end.

(** The effect on the map of mutating the object that [m.get(k)] returns. *)
Fixpoint map_modify (m : PlayerMap) (k : value)
    (f : PlayerRecord -> PlayerRecord) : PlayerMap :=
  match m with
  | [] => []
  | (k', p) :: rest =>
      if same_value_zero k' k then (k', f p) :: rest
      else (k', p) :: map_modify rest k f
  end.

Definition map_keys (m : PlayerMap) : list value := map fst m.
Definition map_values (m : PlayerMap) : list PlayerRecord := map snd m.

(** [s.replace('_', ' ')]: the first underscore only. *)
Fixpoint replace_underscore (s : string) : string :=
  match s with
  | EmptyString => EmptyString
  | String c rest =>
      if Ascii.eqb c "_"%char then String " "%char rest
      else String c (replace_underscore rest)
  end.

Section Aggregation.

(** [parseFloat], applied to the rating only; its result is not looked at. *)
Variable parseFloat : value -> value.

(** The body of [scorers.forEach(item => ...)] (lines 127-146). *)
Definition processScorer (leagueName : string) (m : PlayerMap) (item : value)
    : result PlayerMap :=
  item_player <- prop item "player" ;;
  playerId <- prop item_player "id" ;;
  player <- prop item "player" ;;
  statistics <- prop item "statistics" ;;
  stats <- prop statistics "0" ;;
  if negb (map_has m playerId) then
    player_name <- prop player "name" ;;
    player_photo <- prop player "photo" ;;
    stats_team <- prop stats "team" ;;
    team_name <- prop stats_team "name" ;;
    games <- prop stats "games" ;;
    games_position <- prop games "position" ;;
    stats_goals <- prop stats "goals" ;;
    goals_total <- prop stats_goals "total" ;;
    stats_goals' <- prop stats "goals" ;;
    goals_assists <- prop stats_goals' "assists" ;;
    games' <- prop stats "games" ;;
    games_appearences <- prop games' "appearences" ;;
    games'' <- prop stats "games" ;;
    games_rating <- prop games'' "rating" ;;
    Return (map_set m playerId
      {| id := playerId;
         name := player_name;
         photo := player_photo;
         team := team_name;
         league := replace_underscore leagueName;
         position := games_position;
         goals := js_or goals_total (VNum 0);
         assists := js_or goals_assists (VNum 0);
         appearances := js_or games_appearences (VNum 0);
         rating := if truthy games_rating then parseFloat games_rating
                   else VNum 0 |})
  else Return m.

(** The body of [assists.forEach(item => ...)] (lines 149-156). *)
Definition processAssist (m : PlayerMap) (item : value) : result PlayerMap :=
  item_player <- prop item "player" ;;
  playerId <- prop item_player "id" ;;
  if map_has m playerId then
    statistics <- prop item "statistics" ;;
    stats <- prop statistics "0" ;;
    stats_goals <- prop stats "goals" ;;
    goals_assists <- prop stats_goals "assists" ;;
    Return (map_modify m playerId
              (fun playerData =>
                 set_assists playerData
                   (js_or goals_assists (assists playerData))))
  else Return m.

(** The two [forEach] loops of one league, on the feeds already fetched. *)
Definition mergeFeeds (leagueName : string) (scorers assists_feed : value)
    (m : PlayerMap) : result PlayerMap :=
  m' <- forEach scorers (processScorer leagueName) m ;;
  forEach assists_feed processAssist m'.

(** One turn of [for (const [leagueName, leagueId] of ...)]. *)
Definition processLeague (cfg : config) (net : network) (m : PlayerMap)
    (entry : string * Z) : result PlayerMap :=
  let (leagueName, leagueId) := entry in
  scorers <- getTopScorers cfg net leagueId ;;
  assists_feed <- getTopAssists cfg net leagueId ;;
  mergeFeeds leagueName scorers assists_feed m.

Fixpoint forLeagues (cfg : config) (net : network)
    (entries : list (string * Z)) (m : PlayerMap) : result PlayerMap :=
  match entries with
  | [] => Return m
  | entry :: rest =>
      m' <- processLeague cfg net m entry ;; forLeagues cfg net rest m'
  end.

(** *** Derived fields *)

Definition MAX_SAFE_INTEGER : Z := 2 ^ 53 - 1.

Definition safe (n : Z) : bool := Z.abs n <=? MAX_SAFE_INTEGER.

(** [2^e] for [0 <= e], and 1 below. *)
Definition pow2 (e : Z) : Z := 2 ^ Z.max e 0.

(** The integer nearest to [num / den], ties to the even one ([0 < den]). *)
Definition round_half_even (num den : Z) : Z :=
  let q := num / den in
  let r := num mod den in
  if 2 * r <? den then q
  else if den <? 2 * r then q + 1
  else if Z.even q then q else q + 1.

(** The double [g / a] for integers [0 < g] and [0 < a] that are doubles
    themselves: the pair [(m, s)] stands for [m / 2^s], where [s] puts the
    quotient into [[2^52, 2^53)] and [m] is the 53-bit significand, rounded
    to nearest, ties to even. *)
Definition double_div (g a : Z) : Z * Z :=
  let s0 := 52 + Z.log2 a - Z.log2 g in
  let s := if g * pow2 s0 <? 2 ^ 52 * a * pow2 (- s0) then s0 + 1 else s0 in
  (round_half_even (g * pow2 s) (a * pow2 (- s)), s).

(** [Number.prototype.toFixed(2)] picks the integer [n] with [n / 100]
    nearest to the double, the larger one on a tie. *)
Definition hundredths (x : Z * Z) : Z :=
  let (m, s) := x in
  (200 * m * pow2 (- s) + pow2 s) / (2 * pow2 s).

Definition decimal (n : Z) : string :=
  NilZero.string_of_uint (N.to_uint (Z.to_N n)).

Definition fixed2_text (negative : bool) (n : Z) : string :=
  ((if negative then "-" else "") ++
   decimal (n / 100) ++ "." ++ decimal (n mod 100 / 10) ++ decimal (n mod 10)
  )%string.

(** [(g / a).toFixed(2)] for [0 < a], both within the safe integers: the
    sign goes in front of the digits of the magnitude. *)
Definition toFixed2 (g a : Z) : string :=
  if g =? 0 then "0.00"
  else fixed2_text (g <? 0) (hundredths (double_div (Z.abs g) a)).

Record RankedPlayer : Type := {
  base : PlayerRecord;
  goalsAndAssists : Z;
  goalsPerGame : value
}.

(** The arrow function of [.map(player => ...)] (lines 160-164). *)
Definition derive (player : PlayerRecord) : result RankedPlayer :=
  match goals player, assists player, appearances player with
  | VNum g, VNum a, VNum n =>
      if safe g && safe a && safe n && safe (g + a) then
        Return {| base := player;
                  goalsAndAssists := g + a;
                  goalsPerGame := if 0 <? n then VStr (toFixed2 g n)
                                  else VNum 0 |}
      else Unmodelled
  | _, _, _ => Unmodelled
  end.

Fixpoint map_result {A B : Type} (f : A -> result B) (l : list A)
    : result (list B) :=
  match l with
  | [] => Return []
  | x :: rest => y <- f x ;; ys <- map_result f rest ;; Return (y :: ys)
  end.

(** *** Ranking *)

(** The comparator [(a, b) => b.goalsAndAssists - a.goalsAndAssists]. *)
Definition compareFn (a b : RankedPlayer) : Z :=
  goalsAndAssists b - goalsAndAssists a.

(** [Array.prototype.sort] is a stable sort: with a consistent comparator
    its result is the one of this insertion sort, which puts an element
    before the first later one that the comparator does not put before
    it. *)
Fixpoint sort_insert (cmp : RankedPlayer -> RankedPlayer -> Z)
    (x : RankedPlayer) (l : list RankedPlayer) : list RankedPlayer :=
  match l with
  | [] => [x]
  | y :: rest =>
      if cmp x y <=? 0 then x :: y :: rest else y :: sort_insert cmp x rest
  end.

Fixpoint array_sort (cmp : RankedPlayer -> RankedPlayer -> Z)
    (l : list RankedPlayer) : list RankedPlayer :=
  match l with
  | [] => []
  | x :: rest => sort_insert cmp x (array_sort cmp rest)
  end.

(** Lines 160-170: derive, sort, slice. *)
Definition rankPlayers (cfg : config) (allPlayers : PlayerMap)
    : result (list RankedPlayer) :=
  playersArray <- map_result derive (map_values allPlayers) ;;
  Return (firstn (TOP_PLAYERS_COUNT cfg) (array_sort compareFn playersArray)).

(** The object [{...player, goalsAndAssists, goalsPerGame}] as a value. *)
Definition encode (p : RankedPlayer) : value :=
  VObj [("id", id (base p));
        ("name", name (base p));
        ("photo", photo (base p));
        ("team", team (base p));
        ("league", VStr (league (base p)));
        ("position", position (base p));
        ("goals", goals (base p));
        ("assists", assists (base p));
        ("appearances", appearances (base p));
        ("rating", rating (base p));
        ("goalsAndAssists", VNum (goalsAndAssists p));
        ("goalsPerGame", goalsPerGame p)].

(** *** [getAllPlayers] *)

(** The requests of one turn of the loop over the leagues: the one of
    [getTopScorers(leagueId)], then the one of [getTopAssists(leagueId)]. *)
Definition requests_of (cfg : config) (entry : string * Z) : list request :=
  [ request_for cfg "players/topscorers" (snd entry);
    request_for cfg "players/topassists" (snd entry) ].

(** The requests that [forLeagues] sends: both feeds of every league up to
    the one, if any, whose merge throws. *)
Fixpoint requests_sent (cfg : config) (net : network)
    (entries : list (string * Z)) (m : PlayerMap) : list request :=
  match entries with
  | [] => []
  | entry :: rest =>
      requests_of cfg entry ++
      match processLeague cfg net m entry with
      | Return m' => requests_sent cfg net rest m'
      | _ => []
      end
  end.

(** What a call leaves behind: its result, the storage, the requests made. *)
Record run : Type := {
  outcome : result value;
  storage : localStorage;
  requests : list request
}.

(** Lines 113-175, the path that fetches. *)
Definition fetchAllPlayers (cfg : config) (now : Z) (net : network)
    (ls : localStorage) : run :=
  let sent := requests_sent cfg net (LEAGUES cfg) [] in
  match (allPlayers <- forLeagues cfg net (LEAGUES cfg) [] ;;
         rankPlayers cfg allPlayers) with
  | Return topPlayers =>
      let v := VArr (map encode topPlayers) in
      {| outcome := Return v; storage := saveCache now v ls; requests := sent |}
  | Throw e => {| outcome := Throw e; storage := ls; requests := sent |}
  | Unmodelled => {| outcome := Unmodelled; storage := ls; requests := sent |}
  end.

(** [getAllPlayers()], for a manager whose [this.cache] is [cache]. *)
Definition getAllPlayers (cfg : config) (cache : option snapshot) (now : Z)
    (net : network) (ls : localStorage) : run :=
  match cache with
  | Some data =>
      if truthy (players data) then
        {| outcome := Return (players data); storage := ls; requests := [] |}
      else fetchAllPlayers cfg now net ls
  | None => fetchAllPlayers cfg now net ls
  end.

(** *** The page *)

(** What the [.player-grid] element shows. *)
Inductive grid : Type :=
| Static                          (* the markup the page ships with *)
| Cards (shown : list value)      (* one card per player, in order *)
| ApiKeyWarning
| ErrorMessage.

(** The element [#last-updated]: not in the document, in it with the text
    it shipped with, or showing the time of an update. *)
Inductive stamp : Type :=
| NoElement
| Unstamped
| Stamped.

(** The element [#players] and the [.container] in it. *)
Inductive section : Type :=
| NoSection
| SectionWithoutContainer
| SectionWithContainer.

(** The document, as far as the manager touches it: the [.player-grid]
    element ([None] when [document.querySelector] finds none), the element
    [#last-updated], and the section [#players].  The grid is taken to
    hold neither [#last-updated] nor the [.container] of the section:
    replacing the content of the grid leaves them in the document. *)
Record page : Type := {
  player_grid : option grid;
  last_updated : stamp;
  players_section : section
}.

(** [playerGrid.innerHTML = ...] and [playerGrid.appendChild(...)]. *)
Definition set_grid (pg : page) (g : grid) : page :=
  {| player_grid := Some g;
     last_updated := last_updated pg;
     players_section := players_section pg |}.

Definition set_stamp (pg : page) (t : stamp) : page :=
  {| player_grid := player_grid pg;
     last_updated := t;
     players_section := players_section pg |}.

(** [arr.forEach(f)] with the state as the loop leaves it, also when [f]
    throws: the state is then the one before the call that threw. *)
Fixpoint forEach_state_items {S : Type} (f : S -> value -> result S)
    (items : list value) (s : S) : S * result unit :=
  match items with
  | [] => (s, Return tt)
  | item :: rest =>
      match f s item with
      | Return s' => forEach_state_items f rest s'
      | Throw e => (s, Throw e)
      | Unmodelled => (s, Unmodelled)
      end
  end.

Definition forEach_state {S : Type} (arr : value) (f : S -> value -> result S)
    (s : S) : S * result unit :=
  match arr with
  | VArr items => forEach_state_items f items s
  | _ => (s, Throw TypeError)
  end.

(** [createPlayerCard(player, calculateTrend(player), index)]: the card
    shows the fields of [player]; reading them throws on [null] and
    [undefined]. *)
Definition createPlayerCard (player : value) : result value :=
  _goalsPerGame <- prop player "goalsPerGame" ;;
  Return player.

(** [updateTimestamp()] (lines 261-286).  A missing [#last-updated] is
    created and put into the [.container] of [#players]: where the
    section has no container, [querySelector] gives [null] and
    [appendChild] throws; where there is no section, the new element stays
    out of the document. *)
Definition updateTimestamp (pg : page) : page * result unit :=
  match last_updated pg with
  | NoElement =>
      match players_section pg with
      | NoSection => (pg, Return tt)
      | SectionWithoutContainer => (pg, Throw TypeError)
      | SectionWithContainer => (set_stamp pg Stamped, Return tt)
      end
  | Unstamped | Stamped => (set_stamp pg Stamped, Return tt)
  end.

(** [updateWebsite(players)] (lines 189-208): the page as the call leaves
    it, and how the call ends. *)
Definition updateWebsite (players_shown : value) (pg : page)
    : page * result unit :=
  match player_grid pg with
  | None => (pg, Return tt)
  | Some _ =>
      let (cards, looped) :=
        forEach_state players_shown
          (fun cards player =>
             card <- createPlayerCard player ;; Return (cards ++ [card]))
          [] in
      match looped with
      | Return _ => updateTimestamp (set_grid pg (Cards cards))
      | other => (set_grid pg (Cards cards), other)
      end
  end.

Definition showAPIKeyWarning (pg : page) : page :=
  match player_grid pg with
  | None => pg
  | Some _ => set_grid pg ApiKeyWarning
  end.

Definition showError (pg : page) : page :=
  match player_grid pg with
  | None => pg
  | Some _ => set_grid pg ErrorMessage
  end.

(** What [initialize] leaves behind. *)
Record session : Type := {
  view : page;
  store : localStorage;
  sent : list request
}.

(** [initialize()] (lines 349-367). *)
Definition initialize (cfg : config) (cache : option snapshot) (now : Z)
    (net : network) (ls : localStorage) (pg : page) : result session :=
  if String.eqb (API_KEY cfg) "57f67398e65a9dd967d70fe6ecfd76df" then
    Return {| view := showAPIKeyWarning pg; store := ls; sent := [] |}
  else
    let r := getAllPlayers cfg cache now net ls in
    match outcome r with
    | Return players_shown =>
        let (pg', updated) := updateWebsite players_shown pg in
        match updated with
        | Return _ =>
            Return {| view := pg'; store := storage r; sent := requests r |}
        | Throw _ =>
            Return {| view := showError pg'; store := storage r;
                      sent := requests r |}
        | Unmodelled => Unmodelled
        end
    | Throw _ =>
        Return {| view := showError pg; store := storage r; sent := requests r |}
    | Unmodelled => Unmodelled
    end.

(** The constructor: [this.cache = this.loadCache()]. *)
Definition constructor (cfg : config) (now : Z) (ls : localStorage)
    : option snapshot :=
  loadCache cfg now ls.

(** The click handler of the refresh button, up to [initialize]:
    [localStorage.removeItem('ynwa_stats_cache'); this.cache = null]. *)
Definition invalidate (cache : option snapshot) (ls : localStorage)
    : result (option snapshot * localStorage) :=
  ls' <- removeItem ls ;;
  Return (None, ls').

Definition refresh (cfg : config) (cache : option snapshot) (now : Z)
    (net : network) (ls : localStorage) (pg : page) : result session :=
  cleared <- invalidate cache ls ;;
  initialize cfg (fst cleared) now net (snd cleared) pg.

End Aggregation.

(** ** Fixtures: well-formed feed entries and a feed client from tables *)

Definition feed_entry (pid : Z) (player_name team_name : string)
    (goals_total goals_assists games_appearences : value) : value :=
  VObj [("player", VObj [("id", VNum pid); ("name", VStr player_name);
                         ("photo", VStr "photo.png")]);
        ("statistics",
         VArr [VObj [("team", VObj [("name", VStr team_name)]);
                     ("games", VObj [("position", VStr "Attacker");
                                     ("appearences", games_appearences);
                                     ("rating", VStr "7.5")]);
                     ("goals", VObj [("total", goals_total);
                                     ("assists", goals_assists)])]])].

(** An entry with an empty statistics block. *)
Definition bare_entry (pid : Z) (player_name : string) : value :=
  VObj [("player", VObj [("id", VNum pid); ("name", VStr player_name)]);
        ("statistics", VArr [])].

Definition api_body (entries : list value) : option value :=
  Some (VObj [("response", VArr entries)]).

(** A feed client that answers from two tables and is down for the rest. *)
Definition table_network (scorers assists_feeds : list (Z * list value))
    : network :=
  fun req =>
    let table := if String.eqb (endpoint req) "players/topscorers"
                 then scorers else assists_feeds in
    match find (fun row => fst row =? league_param req) table with
    | Some row => Answered 200 (api_body (snd row))
    | None => Rejected
    end.

(** ** Reading a feed entry *)

(** [item.player.id] *)
Definition playerIdOf (item : value) : result value :=
  item_player <- prop item "player" ;; prop item_player "id".

(** [item.statistics[0]] *)
Definition statsOf (item : value) : result value :=
  statistics <- prop item "statistics" ;; prop statistics "0".

(** [item.statistics[0].goals.assists] *)
Definition assistsOf (item : value) : result value :=
  stats <- statsOf item ;;
  stats_goals <- prop stats "goals" ;;
  prop stats_goals "assists".

(** Some entry of the feed is about the player [k]. *)
Definition feed_has (items : list value) (k : value) : bool :=
  existsb (fun item =>
             match playerIdOf item with
             | Return pid => same_value_zero pid k
             | _ => false
             end) items.

(** An entry of the assist feed that is about [k] and carries a truthy
    assist count. *)
Definition assist_hits (items : list value) (k : value) : bool :=
  existsb (fun item =>
             match playerIdOf item, assistsOf item with
             | Return pid, Return aa => same_value_zero pid k && truthy aa
             | _, _ => false
             end) items.

Definition feed_items (feed : value) : list value :=
  match feed with
  | VArr items => items
  | _ => []
  end.

(** ** Well-formed feeds *)

Definition defined (v : value) : bool :=
  match v with
  | VUndef | VNull => false
  | _ => true
  end.

Definition reads_object (c : result value) : bool :=
  match c with
  | Return v => defined v
  | _ => false
  end.

(** An entry with the blocks that the loops read: [player], and in
    [statistics[0]] the blocks [team], [games] and [goals]. *)
Definition well_formed (item : value) : bool :=
  reads_object (prop item "player") &&
  reads_object (stats <- statsOf item ;; prop stats "team") &&
  reads_object (stats <- statsOf item ;; prop stats "games") &&
  reads_object (stats <- statsOf item ;; prop stats "goals").

(** A record whose statistics are integers in the safe range. *)
Definition numeric (player : PlayerRecord) : bool :=
  match goals player, assists player, appearances player with
  | VNum g, VNum a, VNum n => safe g && safe a && safe n && safe (g + a)
  | _, _, _ => false
  end.

(** ** Order of the leaderboard *)

(** The combined score of a record, [goals + assists], where both are
    numbers. *)
Definition combinedScore (player : PlayerRecord) : option Z :=
  match goals player, assists player with
  | VNum g, VNum a => Some (g + a)
  | _, _ => None
  end.

(** Descending by the combined score of the records. *)
Definition descending_by_score (l : list RankedPlayer) : Prop :=
  StronglySorted
    (fun a b =>
       exists score_a score_b,
         combinedScore (base a) = Some score_a /\
         combinedScore (base b) = Some score_b /\
         score_b <= score_a) l.

(** Descending by [goalsAndAssists]. *)
Definition descending (l : list RankedPlayer) : Prop :=
  StronglySorted (fun a b => goalsAndAssists b <= goalsAndAssists a) l.

(** The players of [l] whose combined score is [k], in their order. *)
Definition scoring (k : Z) (l : list RankedPlayer) : list RankedPlayer :=
  filter (fun p => goalsAndAssists p =? k) l.


(** ** Example feeds *)

Definition scorers_39 : list value :=
  [feed_entry 1 "A. Striker" "Reds" (VNum 10) (VNum 2) (VNum 20);
   feed_entry 2 "B. Forward" "Blues" (VNum 8) (VNum 1) (VNum 18)].

Definition assists_39 : list value :=
  [feed_entry 1 "A. Striker" "Reds" (VNum 10) (VNum 5) (VNum 20);
   feed_entry 3 "C. Winger" "Whites" (VNum 1) (VNum 9) (VNum 19)].

Definition scorers_140 : list value :=
  [feed_entry 1 "A. Striker" "Blancos" (VNum 3) (VNum 1) (VNum 5);
   feed_entry 4 "D. Nine" "Rojos" (VNum 7) VNull (VNum 3)].

Definition assists_140 : list value :=
  [feed_entry 1 "A. Striker" "Blancos" (VNum 3) (VNum 7) (VNum 5)].

Definition example_network : network :=
  table_network [(39, scorers_39); (140, scorers_140)]
                [(39, assists_39); (140, assists_140)].

(** A page with the grid, the players section with its container, and no
    time stamp yet. *)
Definition full_page : page :=
  {| player_grid := Some Static; last_updated := NoElement;
     players_section := SectionWithContainer |}.

(** A page with the grid and a players section that has no container. *)
Definition page_without_container : page :=
  {| player_grid := Some Static; last_updated := NoElement;
     players_section := SectionWithoutContainer |}.

(** A feed client whose every request is rejected. *)
Definition offline : network := fun _ => Rejected.

Definition empty_storage : localStorage :=
  {| accessible := true; quota_left := true; ynwa_stats_cache := Missing |}.

(** [parseFloat] for the examples: the rating is not looked at. *)
Definition parse_rating (v : value) : value := v.

Definition merged_39 : PlayerMap :=
  Eval vm_compute in
    match mergeFeeds parse_rating "PREMIER_LEAGUE"
            (VArr scorers_39) (VArr assists_39) [] with
    | Return m => m
    | _ => []
    end.

Definition after_39 : PlayerMap :=
  Eval vm_compute in
    match forLeagues parse_rating CONFIG example_network
            [("PREMIER_LEAGUE", 39)] [] with
    | Return m => m
    | _ => []
    end.

Definition after_39_140 : PlayerMap :=
  Eval vm_compute in
    match forLeagues parse_rating CONFIG example_network (LEAGUES CONFIG) [] with
    | Return m => m
    | _ => []
    end.

Definition leaderboard_39_140 : list RankedPlayer :=
  Eval vm_compute in
    match rankPlayers CONFIG after_39_140 with
    | Return l => l
    | _ => []
    end.

(** The scorer feed of league 39 with an entry, first, whose statistics
    block is empty. *)
Definition malformed_network : network :=
  table_network [(39, bare_entry 9 "E. Bare" :: scorers_39);
                 (140, scorers_140)]
                [(39, assists_39); (140, assists_140)].

(** League 39 is down, league 140 answers. *)
Definition premier_league_down : network :=
  table_network [(140, scorers_140)] [(140, assists_140)].

Definition nobody : RankedPlayer :=
  {| base := {| id := VUndef; name := VUndef; photo := VUndef;
                team := VUndef; league := ""; position := VUndef;
                goals := VNum 0; assists := VNum 0; appearances := VNum 0;
                rating := VNum 0 |};
     goalsAndAssists := 0;
     goalsPerGame := VNum 0 |}.

Definition third_ranked : RankedPlayer :=
  Eval vm_compute in nth 2 leaderboard_39_140 nobody.

(** A store that holds a leaderboard saved at time 0. *)
Definition storage_saved_at_0 : localStorage :=
  Eval vm_compute in
    saveCache 0 (VArr (map encode leaderboard_39_140)) empty_storage.

Definition snapshot_saved_at_0 : snapshot :=
  {| timestamp := Some 0;
     players := VArr (map encode leaderboard_39_140) |}.

(** Every key of the map is met once. *)
Fixpoint distinct_keys (m : PlayerMap) : bool :=
  match m with
  | [] => true
  | (k, _) :: rest => negb (map_has rest k) && distinct_keys rest
  end.

(** ** Invariants of the global mapping *)

(** What [x || 0] can be: a truthy value, or the number 0. *)
Definition defaulted (v : value) : bool :=
  truthy v || match v with
              | VNum 0 => true
              | _ => false
              end.

(** The scorer feed that the feed client delivers for the league [entry]
    has an entry about the player [k]. *)
Definition league_lists (cfg : config) (net : network) (k : value)
    (entry : string * Z) : bool :=
  match getTopScorers cfg net (snd entry) with
  | Return scorers => feed_has (feed_items scorers) k
  | _ => false
  end.

(** Both feeds that the feed client delivers for the league [entry] are
    arrays of well-formed entries (as the empty feeds of a league whose
    fetches fail are). *)
Definition league_well_formed (cfg : config) (net : network)
    (entry : string * Z) : bool :=
  match getTopScorers cfg net (snd entry),
        getTopAssists cfg net (snd entry) with
  | Return (VArr scorers), Return (VArr assists_feed) =>
      forallb well_formed scorers && forallb well_formed assists_feed
  | _, _ => false
  end.

(** Every key of the map and its record satisfy [P]. *)
Definition all_entries (P : value -> PlayerRecord -> Prop) (m : PlayerMap)
    : Prop :=
  Forall (fun entry => P (fst entry) (snd entry)) m.

(** ** Page load and the refresh button *)

(** The listener of [DOMContentLoaded] (lines 398-402): a new manager,
    then [initialize]; [now] is the clock when the constructor reads it,
    [later] when [saveCache] does. *)
Definition pageLoad (parseFloat : value -> value) (cfg : config)
    (now later : Z) (net : network) (ls : localStorage) (pg : page)
    : result session :=
  initialize parseFloat cfg (constructor cfg now ls) later net ls pg.

(** What [updateWebsite] can turn into cards: an array without [null] and
    [undefined] elements. *)
Definition renderable (v : value) : bool :=
  match v with
  | VArr items => forallb defined items
  | _ => false
  end.

(** The elements of an array before its first [null] or [undefined]
    element: the cards that are in the grid when [updateWebsite] stops. *)
Fixpoint defined_prefix (items : list value) : list value :=
  match items with
  | [] => []
  | item :: rest => if defined item then item :: defined_prefix rest else []
  end.

Definition renderable_prefix (v : value) : list value :=
  match v with
  | VArr items => defined_prefix items
  | _ => []
  end.




(** The texts of the refresh button. *)
Inductive button_label : Type :=
| RefreshStats
| Refreshing
| Updated
| ErrorLabel.

(** The button when the click listener (lines 321-343) has run, before
    its timers fire: [resets] tells whether a timer was set that restores
    the text and enables the button; and the manager's cache, what
    [initialize] left behind, and the exception, if any, that the
    listener ended with. *)
Record click : Type := {
  shown : button_label;
  disabled : bool;
  resets : bool;
  cache_after : option snapshot;
  left_behind : option session;
  rejected : option exn
}.

Definition onRefreshClick (parseFloat : value -> value) (cfg : config)
    (cache : option snapshot) (now : Z) (net : network) (ls : localStorage)
    (pg : page) : result click :=
  match removeItem ls with
  | Return ls' =>
      match initialize parseFloat cfg None now net ls' pg with
      | Return s =>
          Return {| shown := Updated; disabled := true; resets := true;
                    cache_after := None; left_behind := Some s;
                    rejected := None |}
      | Throw e =>
          Return {| shown := ErrorLabel; disabled := true; resets := true;
                    cache_after := None; left_behind := None;
                    rejected := None |}
      | Unmodelled => Unmodelled
      end
  | Throw e =>
      Return {| shown := Refreshing; disabled := true; resets := false;
                cache_after := cache; left_behind := None;
                rejected := Some e |}
  | Unmodelled => Unmodelled
  end.

(** ** The trend of a card *)

Record trend : Type := {
  direction : string;
  percentage : Z
}.

(** The text before the first point, and the text after it. *)
Fixpoint before_point (s : string) : option (string * string) :=
  match s with
  | EmptyString => None
  | String c rest =>
      if Ascii.eqb c "."%char then Some (EmptyString, rest)
      else match before_point rest with
           | Some (whole, fraction) => Some (String c whole, fraction)
           | None => None
           end
  end.

Definition parse_uint (s : string) : option Z :=
  match NilZero.uint_of_string s with
  | Some d => Some (Z.of_N (N.of_uint d))
  | None => None
  end.

(** The number of hundredths that a text of digits, a point and two
    digits stands for. *)
Definition parse_magnitude (s : string) : option Z :=
  match before_point s with
  | Some (whole, fraction) =>
      if Nat.eqb (String.length fraction) 2 then
        match parse_uint whole, parse_uint fraction with
        | Some i, Some f => Some (100 * i + f)
        | _, _ => None
        end
      else None
  | None => None
  end.

(** [parseFloat] on the texts that [toFixed(2)] prints, in hundredths. *)
Definition parse_fixed2 (s : string) : option Z :=
  match s with
  | String "-" rest =>
      match parse_magnitude rest with
      | Some h => Some (- h)
      | None => None
      end
  | _ => parse_magnitude s
  end.

(** [parseFloat(player.goalsPerGame)] in hundredths, [None] for [NaN]: an
    integer is its own text, a text of [toFixed(2)] is parsed, the texts of
    [undefined], [null], [NaN], the booleans and the objects have no
    number in front.  Other texts and arrays are not modelled. *)
Definition rate_hundredths (v : value) : result (option Z) :=
  match v with
  | VNum n => Return (Some (100 * n))
  | VStr s =>
      match parse_fixed2 s with
      | Some h => Return (Some h)
      | None => Unmodelled
      end
  | VArr _ => Unmodelled
  | VUndef | VNull | VNaN | VBool _ | VObj _ => Return None
  end.

Definition up (p : Z) : trend := {| direction := "up"; percentage := p |}.

(** [calculateTrend(player)] (lines 179-186); the literals 0.8, 0.5 and
    0.3 are the doubles that the texts "0.80", "0.50" and "0.30" parse to,
    so that the comparisons are those of the hundredths. *)
Definition calculateTrend (player : value) : result trend :=
  goalsPerGame_read <- prop player "goalsPerGame" ;;
  rate <- rate_hundredths goalsPerGame_read ;;
  match rate with
  | Some h =>
      if 80 <? h then Return (up 25)
      else if 50 <? h then Return (up 15)
      else if 30 <? h then Return (up 8)
      else Return (up 5)
  | None => Return (up 5)
  end.

(** ** The proxy function ([soccer-stats.js]) *)

(** The event of the serverless platform, as far as the handler reads it:
    the method and the query parameters, [None] when the platform passes
    no object. *)
Record event : Type := {
  httpMethod : string;
  queryStringParameters : option (list (string * string))
}.

(** [(event.queryStringParameters || {})[k]], [None] for [undefined]. *)
Fixpoint query_lookup (k : string) (params : list (string * string))
    : option string :=
  match params with
  | [] => None
  | (k', v) :: rest => if String.eqb k k' then Some v else query_lookup k rest
  end.

Definition query (ev : event) (k : string) : option string :=
  match queryStringParameters ev with
  | Some params => query_lookup k params
  | None => None
  end.

(** A text that the handler takes for present: neither [undefined] nor
    empty. *)
Definition given (s : option string) : bool :=
  match s with
  | Some text => negb (String.eqb text "")
  | None => false
  end.

(** The request that the handler sends upstream: the text it builds the
    URL from, the search parameters it appends, and the key header. *)
Record upstream : Type := {
  url_text : string;
  appended : list (string * string);
  key_header : string
}.

(** [error.message] of the [catch] block. *)
Inductive failure : Type :=
| StatusNotOk (status : Z)     (* API responded with status: ... *)
| FetchFailed                  (* the promise of fetch rejected *)
| BodyNotJson.                 (* response.json() rejected *)

Inductive proxy_body : Type :=
| ErrorBody (error : string)                         (* {error} *)
| FailureBody (error : string) (message : failure)   (* {error, message} *)
| DataBody (data : value).                           (* the upstream JSON *)

Record http_response : Type := {
  statusCode : Z;
  headers : list (string * string);
  body : proxy_body
}.

Definition optional_param (k : string) (v : option string)
    : list (string * string) :=
  match v with
  | Some text => if String.eqb text "" then [] else [(k, text)]
  | None => []
  end.

(** [exports.handler]: the response, and the requests sent upstream. *)
Definition handler (ev : event) (API_FOOTBALL_KEY : option string)
    (fetch : upstream -> response) : http_response * list upstream :=
  if negb (String.eqb (httpMethod ev) "GET") then
    ({| statusCode := 405; headers := [];
        body := ErrorBody "Method not allowed" |}, [])
  else if negb (given API_FOOTBALL_KEY) then
    ({| statusCode := 500; headers := [];
        body := ErrorBody "API key not configured" |}, [])
  else if negb (given (query ev "endpoint")) then
    ({| statusCode := 400; headers := [];
        body := ErrorBody "Endpoint parameter required" |}, [])
  else
    let req :=
      {| url_text :=
           ("https://v3.football.api-sports.io/" ++
            match query ev "endpoint" with
            | Some endpoint => endpoint
            | None => ""
            end)%string;
         appended := optional_param "league" (query ev "league") ++
                     optional_param "season" (query ev "season");
         key_header := match API_FOOTBALL_KEY with
                       | Some k => k
                       | None => ""
                       end |} in
    let failed (why : failure) :=
      {| statusCode := 500;
         headers := [("Access-Control-Allow-Origin", "*");
                     ("Content-Type", "application/json")];
         body := FailureBody "Failed to fetch data from API" why |} in
    (match fetch req with
     | Rejected => failed FetchFailed
     | Answered status answer =>
         if response_ok status then
           match answer with
           | Some data =>
               {| statusCode := 200;
                  headers := [("Access-Control-Allow-Origin", "*");
                              ("Access-Control-Allow-Headers", "Content-Type");
                              ("Content-Type", "application/json")];
                  body := DataBody data |}
           | None => failed BodyNotJson
           end
         else failed (StatusNotOk status)
     end, [req]).

(** The value of a header of the response. *)
Definition header (name : string) (r : http_response) : option string :=
  query_lookup name (headers r).

(** ** The assist loop on a feed with repeated players *)

(** The assists of the player [x] when the assist loop has gone through
    [items], starting from [current]: every entry about [x] with a truthy
    count replaces them. *)
Fixpoint assists_after (items : list value) (x current : value) : value :=
  match items with
  | [] => current
  | item :: rest =>
      assists_after rest x
        match playerIdOf item, assistsOf item with
        | Return pid, Return aa =>
            if same_value_zero pid x && truthy aa then aa else current
        | _, _ => current
        end
  end.

(** The assists of the player [x] when the assist loops of the leagues
    [entries] have gone, in order, through the feeds that the feed client
    delivers for them, starting from [current]. *)
Fixpoint assists_through (cfg : config) (net : network)
    (entries : list (string * Z)) (x current : value) : value :=
  match entries with
  | [] => current
  | entry :: rest =>
      assists_through cfg net rest x
        match getTopAssists cfg net (snd entry) with
        | Return feed => assists_after (feed_items feed) x current
        | _ => current
        end
  end.

(** ** Further example data *)

(** [CONFIG] with a key that is neither the placeholder nor the literal
    of the check. *)
Definition keyed_config : config :=
  {| API_KEY := "a-real-key"; LEAGUES := LEAGUES CONFIG;
     SEASON := SEASON CONFIG; CACHE_DURATION := CACHE_DURATION CONFIG;
     TOP_PLAYERS_COUNT := TOP_PLAYERS_COUNT CONFIG |}.



(** A scorer feed whose players are not in the order of their scores, two
    pairs of them with equal scores: 3, 6, 6, 3 and 9. *)
Definition scorers_tied : list value :=
  [feed_entry 5 "E. Five" "Reds" (VNum 2) (VNum 1) (VNum 10);
   feed_entry 6 "F. Six" "Reds" (VNum 4) (VNum 2) (VNum 10);
   feed_entry 7 "G. Seven" "Blues" (VNum 5) (VNum 1) (VNum 10);
   feed_entry 8 "H. Eight" "Blues" (VNum 1) (VNum 2) (VNum 10);
   feed_entry 9 "I. Nine" "Whites" (VNum 6) (VNum 3) (VNum 10)].

Definition tied_players : PlayerMap :=
  Eval vm_compute in
    match mergeFeeds parse_rating "PREMIER_LEAGUE"
            (VArr scorers_tied) (VArr []) [] with
    | Return m => m
    | _ => []
    end.

(** [CONFIG] with a leaderboard of four. *)
Definition top_four_config : config :=
  {| API_KEY := API_KEY CONFIG; LEAGUES := LEAGUES CONFIG;
     SEASON := SEASON CONFIG; CACHE_DURATION := CACHE_DURATION CONFIG;
     TOP_PLAYERS_COUNT := 4 |}.

Definition leaderboard_tied : list RankedPlayer :=
  Eval vm_compute in
    match rankPlayers top_four_config tied_players with
    | Return l => l
    | _ => []
    end.

(** The record of player 4: 7 goals in 3 appearances. *)
Definition d_nine : PlayerRecord := Eval vm_compute in base third_ranked.


(** The assist feed of league 140 with the count 0 for player 1, whose
    entry in the scorer feed of that league has 1 assist. *)
Definition assists_140_zero : list value :=
  [feed_entry 1 "A. Striker" "Blancos" (VNum 3) (VNum 0) (VNum 5)].

Definition zero_count_network : network :=
  table_network [(39, scorers_39); (140, scorers_140)]
                [(39, assists_39); (140, assists_140_zero)].

Definition after_39_140_zero : PlayerMap :=
  Eval vm_compute in
    match mergeFeeds parse_rating "LA_LIGA"
            (VArr scorers_140) (VArr assists_140_zero) after_39 with
    | Return m => m
    | _ => []
    end.

(** A store whose snapshot is fresh at time 0 and holds a number where
    the list of players should be. *)
Definition storage_with_number : localStorage :=
  {| accessible := true; quota_left := true;
     ynwa_stats_cache :=
       Parsed {| timestamp := Some 0; players := VNum 5 |} |}.


(** An assist feed with four entries for player 1: 5, 0, 6 and no count. *)
Definition assists_repeated : list value :=
  [feed_entry 1 "A. Striker" "Reds" (VNum 10) (VNum 5) (VNum 20);
   feed_entry 1 "A. Striker" "Reds" (VNum 10) (VNum 0) (VNum 20);
   feed_entry 1 "A. Striker" "Reds" (VNum 10) (VNum 6) (VNum 20);
   feed_entry 1 "A. Striker" "Reds" (VNum 10) VNull (VNum 20)].

Definition merged_repeated : PlayerMap :=
  Eval vm_compute in
    match forEach_items processAssist assists_repeated merged_39 with
    | Return m => m
    | _ => []
    end.

(** A request to the proxy for the scorers of league 39. *)
Definition scorers_event : event :=
  {| httpMethod := "GET";
     queryStringParameters :=
       Some [("endpoint", "players/topscorers"); ("league", "39");
             ("season", "2025"); ("page", "2")] |}.

Definition scorers_upstream : upstream :=
  {| url_text := "https://v3.football.api-sports.io/players/topscorers";
     appended := [("league", "39"); ("season", "2025")];
     key_header := "server-side-key" |}.

(** An upstream that answers every request with the scorers of league 39. *)
Definition upstream_answers : upstream -> response :=
  fun _ => Answered 200 (api_body scorers_39).

(** ** Properties *)

(** *** The result monad *)

Lemma bind_Return {A B : Type} (c : result A) (k : A -> result B) (b : B) :
  bind c k = Return b -> exists a, c = Return a /\ k a = Return b.
Proof.
  destruct c as [a | e |]; simpl; intro H; try discriminate.
  exists a; auto.
Qed.

Ltac bind_inv H :=
  let a := fresh "a" in
  let Ha := fresh "Ha" in
  apply bind_Return in H; destruct H as [a [Ha H]].

Lemma forEach_items_app {S : Type} (f : S -> value -> result S)
    (l1 l2 : list value) (s : S) :
  forEach_items f (l1 ++ l2) s =
  (s' <- forEach_items f l1 s ;; forEach_items f l2 s').
Proof.
  revert s; induction l1 as [| x l1 IH]; intro s; simpl.
  - reflexivity.
  - destruct (f s x) as [s' | e |]; simpl; auto.
Qed.

(** An invariant of the state that every step keeps is kept by the loop. *)
Lemma forEach_items_invariant {S : Type} (P : S -> Prop)
    (f : S -> value -> result S) (items : list value) :
  (forall s item s', P s -> f s item = Return s' -> P s') ->
  forall s s', P s -> forEach_items f items s = Return s' -> P s'.
Proof.
  intro Hstep; induction items as [| x items IH]; intros s s' Hs H; simpl in H.
  - injection H as <-; exact Hs.
  - bind_inv H. eapply IH; [ eapply Hstep; eauto | exact H ].
Qed.

(** *** Keys *)

Lemma same_value_zero_eq (a b : value) :
  same_value_zero a b = true -> a = b.
Proof.
  destruct a, b; simpl; intro H; try discriminate; try reflexivity.
  - apply Bool.eqb_prop in H; congruence.
  - apply Z.eqb_eq in H; congruence.
  - apply String.eqb_eq in H; congruence.
Qed.

Lemma same_value_zero_sym (a b : value) :
  same_value_zero a b = same_value_zero b a.
Proof.
  destruct a, b; simpl; try reflexivity.
  - destruct b0, b; reflexivity.
  - apply Z.eqb_sym.
  - apply String.eqb_sym.
Qed.

Lemma same_value_zero_refl_l (a b : value) :
  same_value_zero a b = true -> same_value_zero a a = true.
Proof.
  intro H. pose proof (same_value_zero_eq _ _ H) as E. subst b. exact H.
Qed.

(** *** The map *)

Lemma map_has_app (m1 m2 : PlayerMap) (k : value) :
  map_has (m1 ++ m2) k = map_has m1 k || map_has m2 k.
Proof.
  induction m1 as [| [k' p] m1 IH]; simpl.
  - reflexivity.
  - rewrite IH, orb_assoc; reflexivity.
Qed.

Lemma map_set_new (m : PlayerMap) (k : value) (p : PlayerRecord) :
  map_has m k = false -> map_set m k p = m ++ [(k, p)].
Proof.
  induction m as [| [k' p'] m IH]; simpl; intro H.
  - reflexivity.
  - apply orb_false_iff in H as [H1 H2]. rewrite H1, IH by exact H2.
    reflexivity.
Qed.

Lemma map_keys_modify (m : PlayerMap) (k : value)
    (f : PlayerRecord -> PlayerRecord) :
  map_keys (map_modify m k f) = map_keys m.
Proof.
  induction m as [| [k' p] m IH]; simpl.
  - reflexivity.
  - destruct (same_value_zero k' k); simpl; [ | rewrite IH ]; reflexivity.
Qed.

Lemma map_has_keys (m1 m2 : PlayerMap) :
  map_keys m1 = map_keys m2 -> forall k, map_has m1 k = map_has m2 k.
Proof.
  revert m2; induction m1 as [| [k1 p1] m1 IH]; intros [| [k2 p2] m2] H k;
    simpl in *; try discriminate; try reflexivity.
  injection H as -> H. rewrite (IH m2 H k). reflexivity.
Qed.

Lemma map_has_modify (m : PlayerMap) (k k0 : value)
    (f : PlayerRecord -> PlayerRecord) :
  map_has (map_modify m k0 f) k = map_has m k.
Proof. apply map_has_keys, map_keys_modify. Qed.

Lemma map_get_has (m : PlayerMap) (k : value) :
  map_has m k = true <-> exists p, map_get m k = Some p.
Proof.
  induction m as [| [k' p'] m IH]; simpl.
  - split; [ discriminate | intros [p H]; discriminate ].
  - destruct (same_value_zero k' k); simpl.
    + split; eauto.
    + exact IH.
Qed.

Lemma map_get_app_l (m1 m2 : PlayerMap) (k : value) (p : PlayerRecord) :
  map_get m1 k = Some p -> map_get (m1 ++ m2) k = Some p.
Proof.
  induction m1 as [| [k' p'] m1 IH]; simpl; intro H.
  - discriminate.
  - destruct (same_value_zero k' k); auto.
Qed.

Lemma map_get_app_r (m1 m2 : PlayerMap) (k : value) :
  map_has m1 k = false -> map_get (m1 ++ m2) k = map_get m2 k.
Proof.
  induction m1 as [| [k' p'] m1 IH]; simpl; intro H.
  - reflexivity.
  - apply orb_false_iff in H as [H1 H2]. rewrite H1. auto.
Qed.

Lemma map_get_modify_same (m : PlayerMap) (k : value)
    (f : PlayerRecord -> PlayerRecord) (p : PlayerRecord) :
  map_get m k = Some p -> map_get (map_modify m k f) k = Some (f p).
Proof.
  induction m as [| [k' p'] m IH]; simpl; intro H.
  - discriminate.
  - destruct (same_value_zero k' k) eqn:E; simpl; rewrite E.
    + congruence.
    + auto.
Qed.

Lemma map_get_modify_other (m : PlayerMap) (k k0 : value)
    (f : PlayerRecord -> PlayerRecord) :
  same_value_zero k0 k = false ->
  map_get (map_modify m k0 f) k = map_get m k.
Proof.
  intro Hne. induction m as [| [k' p'] m IH]; simpl.
  - reflexivity.
  - destruct (same_value_zero k' k0) eqn:E0; simpl.
    + destruct (same_value_zero k' k) eqn:E; [ | reflexivity ].
      pose proof (same_value_zero_eq _ _ E0) as H0.
      pose proof (same_value_zero_eq _ _ E) as H1.
      subst k0 k. congruence.
    + rewrite IH. reflexivity.
Qed.

(** *** The merge of the two feeds of a league *)

Ltac bind_invs H :=
  repeat (let a := fresh "a" in
          let Ha := fresh "Ha" in
          apply bind_Return in H; destruct H as [a [Ha H]]).

(** Two reads of the same property give the same value. *)
Ltac same_reads :=
  repeat match goal with
         | H1 : ?c = Return ?x, H2 : ?c = Return ?y |- _ =>
             rewrite H1 in H2; injection H2 as <-
         end.

Ltac replay_reads :=
  repeat match goal with
         | H : ?c = Return _ |- context [?c] => rewrite H; simpl
         end.

Section MergeProperties.

Variable parseFloat : value -> value.

Lemma processScorer_inv (leagueName : string) (m m' : PlayerMap) (item : value) :
  processScorer parseFloat leagueName m item = Return m' ->
  exists pid, playerIdOf item = Return pid /\
    ((map_has m pid = true /\ m' = m) \/
     (map_has m pid = false /\
      exists r sa, m' = m ++ [(pid, r)] /\ id r = pid /\
                   assistsOf item = Return sa /\
                   assists r = js_or sa (VNum 0))).
Proof.
  unfold processScorer. intro H. bind_invs H. same_reads.
  exists a0. split.
  - unfold playerIdOf. replay_reads. reflexivity.
  - destruct (map_has m a0) eqn:Hhas; simpl in H.
    + left. split; congruence.
    + right. split; [ reflexivity | ].
      bind_invs H. same_reads. injection H as <-.
      eexists. eexists. split; [ apply map_set_new; exact Hhas | ].
      split; [ reflexivity | ]. split; [ | reflexivity ].
      unfold assistsOf, statsOf. replay_reads. reflexivity.
Qed.

Lemma processAssist_inv (m m' : PlayerMap) (item : value) :
  processAssist m item = Return m' ->
  exists pid, playerIdOf item = Return pid /\
    ((map_has m pid = false /\ m' = m) \/
     (map_has m pid = true /\
      exists aa, assistsOf item = Return aa /\
                 m' = map_modify m pid
                        (fun playerData =>
                           set_assists playerData
                             (js_or aa (assists playerData))))).
Proof.
  unfold processAssist. intro H. bind_invs H.
  exists a0. split.
  - unfold playerIdOf. replay_reads. reflexivity.
  - destruct (map_has m a0) eqn:Hhas.
    + right. split; [ reflexivity | ].
      bind_invs H. injection H as <-.
      eexists. split; [ | reflexivity ].
      unfold assistsOf, statsOf. replay_reads. reflexivity.
    + left. split; congruence.
Qed.

(** The scorer loop adds the players of the scorer feed, and only them. *)
Lemma scorers_has (leagueName : string) (items : list value) :
  forall m m',
    forEach_items (processScorer parseFloat leagueName) items m = Return m' ->
    forall k, map_has m' k = map_has m k || feed_has items k.
Proof.
  induction items as [| item items IH]; intros m m' H k; simpl in H.
  - injection H as <-. simpl. rewrite orb_false_r. reflexivity.
  - bind_inv H. rewrite (IH _ _ H k). simpl.
    apply processScorer_inv in Ha as [pid [Hpid Hcase]]. rewrite Hpid.
    destruct Hcase as [[Hhas ->] | [Hhas [r [sa [-> _]]]]].
    + destruct (same_value_zero pid k) eqn:E; simpl; [ | reflexivity ].
      apply same_value_zero_eq in E. subst k. rewrite Hhas. reflexivity.
    + rewrite map_has_app. simpl. rewrite orb_false_r, orb_assoc.
      reflexivity.
Qed.

(** The assist loop adds no player. *)
Lemma assists_keys (items : list value) :
  forall m m',
    forEach_items processAssist items m = Return m' ->
    map_keys m' = map_keys m.
Proof.
  intros m m' H.
  apply (forEach_items_invariant (fun s => map_keys s = map_keys m)
           processAssist items) with (s := m); auto.
  intros s item s' Hs Hstep.
  apply processAssist_inv in Hstep as [pid [_ [[_ ->] | [_ [aa [_ ->]]]]]].
  - exact Hs.
  - rewrite map_keys_modify. exact Hs.
Qed.

Lemma forEach_Return {S : Type} (feed : value) (f : S -> value -> result S)
    (s s' : S) :
  forEach feed f s = Return s' ->
  feed = VArr (feed_items feed) /\
  forEach_items f (feed_items feed) s = Return s'.
Proof.
  destruct feed; simpl; intro H; try discriminate. auto.
Qed.

Lemma mergeFeeds_has (leagueName : string) (scorers assists_feed : value)
    (m m' : PlayerMap) :
  mergeFeeds parseFloat leagueName scorers assists_feed m = Return m' ->
  forall k, map_has m' k = map_has m k || feed_has (feed_items scorers) k.
Proof.
  unfold mergeFeeds. intros H k. bind_inv H.
  apply forEach_Return in Ha as [_ Ha]. apply forEach_Return in H as [_ H].
  rewrite (map_has_keys _ _ (assists_keys _ _ _ H) k).
  apply (scorers_has _ _ _ _ Ha).
Qed.

(** C1. The mapping that the merge of one competition's feeds builds holds
    exactly the players of the scorer feed (besides those it held before,
    none for a mapping that starts empty): a player identifier is a key of
    the mapping if and only if an entry of the scorer feed carries it, and a
    player who is in the assist feed but not in the scorer feed does not
    enter the mapping. *)
Theorem merge_is_scorer_anchored (leagueName : string)
    (scorers assists_feed : value) (m0 m : PlayerMap) :
  mergeFeeds parseFloat leagueName scorers assists_feed m0 = Return m ->
  (forall k, map_has m k = map_has m0 k || feed_has (feed_items scorers) k) /\
  (m0 = [] -> forall k, map_has m k = feed_has (feed_items scorers) k) /\
  (forall k, feed_has (feed_items assists_feed) k = true ->
             feed_has (feed_items scorers) k = false ->
             map_has m0 k = false ->
             map_has m k = false).
Proof.
  intro H. pose proof (mergeFeeds_has _ _ _ _ _ H) as Hhas.
  split; [ exact Hhas | split ].
  - intros -> k. rewrite Hhas. reflexivity.
  - intros k _ Hno H0. rewrite Hhas, Hno, H0. reflexivity.
Qed.

(** The scorer loop leaves the records that are in the map alone. *)
Lemma scorers_get_old (leagueName : string) (items : list value)
    (k : value) (p : PlayerRecord) :
  forall m m',
    map_get m k = Some p ->
    forEach_items (processScorer parseFloat leagueName) items m = Return m' ->
    map_get m' k = Some p.
Proof.
  intros m m' Hget H.
  apply (forEach_items_invariant (fun s => map_get s k = Some p)
           (processScorer parseFloat leagueName) items) with (s := m); auto.
  intros s item s' Hs Hstep.
  apply processScorer_inv in Hstep
    as [pid [_ [[_ ->] | [_ [r [sa [-> _]]]]]]].
  - exact Hs.
  - apply map_get_app_l. exact Hs.
Qed.

Lemma set_assists_same (p : PlayerRecord) : set_assists p (assists p) = p.
Proof. destruct p; reflexivity. Qed.

Lemma set_assists_twice (p : PlayerRecord) (a b : value) :
  set_assists (set_assists p a) b = set_assists p b.
Proof. reflexivity. Qed.

(** The assist loop changes nothing but the assists of a record. *)
Lemma assists_get_frame (items : list value) (k : value) (p : PlayerRecord) :
  forall m m',
    map_get m k = Some p ->
    forEach_items processAssist items m = Return m' ->
    exists a, map_get m' k = Some (set_assists p a).
Proof.
  intros m m' Hget H.
  apply (forEach_items_invariant
           (fun s => exists a, map_get s k = Some (set_assists p a))
           processAssist items) with (s := m); auto.
  - intros s item s' [a Hs] Hstep.
    apply processAssist_inv in Hstep
      as [pid [_ [[_ ->] | [_ [aa [_ ->]]]]]].
    + exists a; exact Hs.
    + destruct (same_value_zero pid k) eqn:E.
      * apply same_value_zero_eq in E. subst pid.
        eexists. erewrite map_get_modify_same by exact Hs.
        rewrite set_assists_twice. reflexivity.
      * exists a. rewrite map_get_modify_other by exact E. exact Hs.
  - exists (assists p). rewrite set_assists_same. exact Hget.
Qed.

Lemma assists_get_unhit (items : list value) (k : value) :
  forall m m',
    assist_hits items k = false ->
    forEach_items processAssist items m = Return m' ->
    map_get m' k = map_get m k.
Proof.
  induction items as [| item items IH]; intros m m' Hhit H; simpl in *.
  - congruence.
  - apply orb_false_iff in Hhit as [Hitem Hrest]. bind_inv H.
    rewrite (IH _ _ Hrest H).
    apply processAssist_inv in Ha
      as [pid [Hpid [[_ ->] | [Hhas [aa [Haa ->]]]]]]; [ reflexivity | ].
    rewrite Hpid, Haa in Hitem.
    destruct (same_value_zero pid k) eqn:E.
    + simpl in Hitem. apply same_value_zero_eq in E. subst pid.
      apply map_get_has in Hhas as [p Hp].
      rewrite (map_get_modify_same _ _ _ _ Hp), Hp.
      unfold js_or. rewrite Hitem, set_assists_same. reflexivity.
    + apply map_get_modify_other. exact E.
Qed.

(** The assist loop goes through the feed in order: every entry about a
    player of the map with a truthy count replaces the player's assists. *)
Lemma assists_loop_exact (items : list value) (x : value) :
  forall (m m' : PlayerMap) (r : PlayerRecord),
    forEach_items processAssist items m = Return m' ->
    map_get m x = Some r ->
    map_get m' x = Some (set_assists r (assists_after items x (assists r))).
Proof.
  induction items as [| item items IH]; intros m m' r H Hget; simpl in H.
  - injection H as <-. simpl. rewrite set_assists_same. exact Hget.
  - bind_inv H. rename a into m1.
    apply processAssist_inv in Ha as [pid [Hpid Hcase]].
    cbn [assists_after]. rewrite Hpid.
    destruct (same_value_zero pid x) eqn:E.
    + pose proof (same_value_zero_eq _ _ E) as Heq. subst pid.
      assert (Hhas : map_has m x = true) by (apply map_get_has; eauto).
      destruct Hcase as [[Hno _] | [_ [aa [Haa ->]]]]; [ congruence | ].
      rewrite Haa. cbn [andb].
      rewrite (IH _ _ _ H (map_get_modify_same _ _ _ _ Hget)).
      rewrite set_assists_twice. unfold js_or. simpl.
      destruct (truthy aa); reflexivity.
    + assert (Hstep : map_get m1 x = Some r).
      { destruct Hcase as [[_ ->] | [_ [aa [_ ->]]]]; [ exact Hget | ].
        rewrite map_get_modify_other by exact E. exact Hget. }
      rewrite (IH _ _ _ H Hstep). cbn [andb].
      destruct (assistsOf item); reflexivity.
Qed.

Lemma assists_after_app (l1 l2 : list value) (x : value) :
  forall current,
    assists_after (l1 ++ l2) x current
    = assists_after l2 x (assists_after l1 x current).
Proof.
  induction l1 as [| item l1 IH]; intro current; simpl; auto.
Qed.

Lemma assists_after_unhit (items : list value) (x : value) :
  assist_hits items x = false ->
  forall current, assists_after items x current = current.
Proof.
  induction items as [| item items IH]; simpl; intros H current;
    [ reflexivity | ].
  apply orb_false_iff in H as [H1 H2]. rewrite (IH H2).
  destruct (playerIdOf item); try reflexivity.
  destruct (assistsOf item); try reflexivity.
  rewrite H1. reflexivity.
Qed.

Lemma feed_has_hits (items : list value) (k : value) :
  feed_has items k = false -> assist_hits items k = false.
Proof.
  induction items as [| item items IH]; simpl; intro H; [ reflexivity | ].
  apply orb_false_iff in H as [H1 H2]. rewrite (IH H2), orb_false_r.
  destruct (playerIdOf item); try reflexivity.
  rewrite H1. destruct (assistsOf item); reflexivity.
Qed.

Lemma assists_get_absent (items : list value) (k : value) :
  forall m m',
    feed_has items k = false ->
    forEach_items processAssist items m = Return m' ->
    map_get m' k = map_get m k.
Proof.
  intros m m' H. apply assists_get_unhit, feed_has_hits, H.
Qed.

Lemma feed_has_app (l1 l2 : list value) (k : value) :
  feed_has (l1 ++ l2) k = feed_has l1 k || feed_has l2 k.
Proof. unfold feed_has. apply existsb_app. Qed.

(** C7, as the code has it.  For a player who is in the scorer feed and
    in the assist feed of one competition (first met in the scorer feed at
    [s_item], met once in the assist feed, at [a_item]), the assists of the
    merged record are the count of the assist feed's entry when it is
    truthy (present and not zero).  Otherwise they are the assists taken
    from the scorer feed's entry, [stats.goals.assists || 0], only when the
    player was not in the mapping before; for a player whom an earlier
    competition has put into the mapping the entry of the scorer feed is
    not read, and the record keeps the assists it had. *)
Theorem assists_of_player_in_both_feeds (leagueName : string)
    (s1 s2 a1 a2 : list value) (s_item a_item x : value) (m0 m : PlayerMap) :
  mergeFeeds parseFloat leagueName
    (VArr (s1 ++ s_item :: s2)) (VArr (a1 ++ a_item :: a2)) m0 = Return m ->
  playerIdOf s_item = Return x ->
  playerIdOf a_item = Return x ->
  same_value_zero x x = true ->
  feed_has s1 x = false ->
  feed_has a1 x = false ->
  feed_has a2 x = false ->
  exists r aa,
    map_get m x = Some r /\
    assistsOf a_item = Return aa /\
    match map_get m0 x with
    | None =>
        exists sa,
          assistsOf s_item = Return sa /\
          assists r = if truthy aa then aa else js_or sa (VNum 0)
    | Some r0 => r = set_assists r0 (if truthy aa then aa else assists r0)
    end.
Proof.
  intros H Hs Ha Hx Hs1 Ha1 Ha2.
  unfold mergeFeeds in H. simpl in H. bind_inv H.
  rename a into ms, Ha0 into Hscorers.
  assert (Hin : exists r1,
             map_get ms x = Some r1 /\
             match map_get m0 x with
             | None =>
                 exists sa,
                   assistsOf s_item = Return sa /\
                   assists r1 = js_or sa (VNum 0)
             | Some r0 => r1 = r0
             end).
  { destruct (map_get m0 x) as [r0 |] eqn:Hget0.
    - exists r0. split; [ | reflexivity ].
      eapply scorers_get_old; [ exact Hget0 | exact Hscorers ].
    - assert (H0 : map_has m0 x = false).
      { destruct (map_has m0 x) eqn:E; [ | reflexivity ].
        apply map_get_has in E as [p Hp]. congruence. }
      rewrite forEach_items_app in Hscorers. bind_inv Hscorers.
      rename a into m1, Ha0 into Hpre. simpl in Hscorers. bind_inv Hscorers.
      rename a into m2, Ha0 into Hitem.
      assert (Hm1 : map_has m1 x = false).
      { rewrite (scorers_has _ _ _ _ Hpre x), H0, Hs1. reflexivity. }
      apply processScorer_inv in Hitem as [pid [Hpid Hcase]].
      rewrite Hs in Hpid. injection Hpid as <-.
      destruct Hcase as [[Hhas _] | [_ [r [sa [-> [_ [Hsa Hr]]]]]]];
        [ congruence | ].
      assert (Hget2 : map_get (m1 ++ [(x, r)]) x = Some r).
      { rewrite map_get_app_r by exact Hm1. simpl. rewrite Hx. reflexivity. }
      exists r. split.
      + eapply scorers_get_old; [ exact Hget2 | exact Hscorers ].
      + exists sa. split; [ exact Hsa | exact Hr ]. }
  destruct Hin as [r1 [Hgets Hr1]].
  rewrite forEach_items_app in H. bind_inv H.
  rename a into m3, Ha0 into Hapre. simpl in H. bind_inv H.
  rename a into m4, Ha0 into Haitem.
  pose proof (assists_get_absent _ _ _ _ Ha1 Hapre) as Hget3.
  rewrite Hgets in Hget3.
  apply processAssist_inv in Haitem as [pid [Hpid Hcase]].
  rewrite Ha in Hpid. injection Hpid as <-.
  assert (Hhas3 : map_has m3 x = true).
  { apply map_get_has. eauto. }
  destruct Hcase as [[Hhas _] | [_ [aa [Haa ->]]]]; [ congruence | ].
  pose proof (assists_get_absent _ _ _ _ Ha2 H) as Hget4.
  rewrite (map_get_modify_same _ _ _ _ Hget3) in Hget4.
  eexists. exists aa. split; [ exact Hget4 | ].
  split; [ exact Haa | ].
  destruct (map_get m0 x) as [r0 |].
  - subst r1. reflexivity.
  - destruct Hr1 as [sa [Hsa Hr]]. exists sa. split; [ exact Hsa | ].
    simpl. rewrite Hr. reflexivity.
Qed.

(** *** Malformed entries *)

Lemma playerIdOf_inv (item pid : value) :
  playerIdOf item = Return pid ->
  exists item_player,
    prop item "player" = Return item_player /\
    prop item_player "id" = Return pid.
Proof. unfold playerIdOf. intro H. bind_inv H. eauto. Qed.

Lemma statsOf_inv (item stats : value) :
  statsOf item = Return stats ->
  exists statistics,
    prop item "statistics" = Return statistics /\
    prop statistics "0" = Return stats.
Proof. unfold statsOf. intro H. bind_inv H. eauto. Qed.

(** A value that has answered one property read answers every other. *)
Lemma prop_other (v : value) (k k' : string) (x : value) :
  prop v k = Return x -> exists x', prop v k' = Return x'.
Proof.
  destruct v; simpl; intro H; try discriminate; eauto.
  - destruct (String.eqb k' "0"); eauto.
    destruct s; eauto.
  - destruct (String.eqb k' "0"); eauto.
Qed.

Lemma processScorer_bare (leagueName : string) (m : PlayerMap)
    (item pid : value) :
  playerIdOf item = Return pid ->
  statsOf item = Return VUndef ->
  processScorer parseFloat leagueName m item =
  if map_has m pid then Return m else Throw TypeError.
Proof.
  intros Hid Hstats.
  apply playerIdOf_inv in Hid as [item_player [Hp Hid]].
  apply statsOf_inv in Hstats as [statistics [Hst H0]].
  destruct (prop_other _ _ "name" _ Hid) as [player_name Hname].
  destruct (prop_other _ _ "photo" _ Hid) as [player_photo Hphoto].
  unfold processScorer. rewrite Hp. simpl. rewrite Hid. simpl.
  rewrite Hst. simpl. rewrite H0. simpl.
  destruct (map_has m pid); simpl; [ reflexivity | ].
  rewrite Hname. simpl. rewrite Hphoto. reflexivity.
Qed.

Lemma processAssist_bare (m : PlayerMap) (item pid : value) :
  playerIdOf item = Return pid ->
  statsOf item = Return VUndef ->
  processAssist m item =
  if map_has m pid then Throw TypeError else Return m.
Proof.
  intros Hid Hstats.
  apply playerIdOf_inv in Hid as [item_player [Hp Hid]].
  apply statsOf_inv in Hstats as [statistics [Hst H0]].
  unfold processAssist. rewrite Hp. simpl. rewrite Hid. simpl.
  destruct (map_has m pid); simpl; [ | reflexivity ].
  rewrite Hst. simpl. rewrite H0. reflexivity.
Qed.

(** C3, as the code has it.  An entry whose statistics block is empty
    ([item.statistics[0]] is [undefined]) is passed over only where its
    statistics are not read: in the scorer feed when its player is in the
    mapping already, in the assist feed when its player is not.  Otherwise
    reading it throws a [TypeError] out of the loop: the entries after it
    are not processed and no mapping comes out, whatever they are. *)
Theorem entry_without_statistics (leagueName : string)
    (pre rest : list value) (item pid : value) (m0 m : PlayerMap) :
  playerIdOf item = Return pid ->
  statsOf item = Return VUndef ->
  (forEach_items (processScorer parseFloat leagueName) pre m0 = Return m ->
   forEach_items (processScorer parseFloat leagueName) (pre ++ item :: rest) m0
   = if map_has m pid
     then forEach_items (processScorer parseFloat leagueName) rest m
     else Throw TypeError) /\
  (forEach_items processAssist pre m0 = Return m ->
   forEach_items processAssist (pre ++ item :: rest) m0
   = if map_has m pid
     then Throw TypeError
     else forEach_items processAssist rest m).
Proof.
  intros Hid Hstats. split; intro Hpre.
  - rewrite forEach_items_app, Hpre. simpl.
    rewrite (processScorer_bare _ _ _ _ Hid Hstats).
    destruct (map_has m pid); reflexivity.
  - rewrite forEach_items_app, Hpre. simpl.
    rewrite (processAssist_bare _ _ _ Hid Hstats).
    destruct (map_has m pid); reflexivity.
Qed.

Lemma prop_cases (v : value) (k : string) :
  (exists x, prop v k = Return x) \/ prop v k = Throw TypeError.
Proof.
  destruct v; simpl; eauto.
  - destruct (String.eqb k "0"); eauto. destruct s; eauto.
  - destruct (String.eqb k "0"); eauto.
Qed.

(** A loop ends at the first entry on which its body throws. *)
Lemma forEach_items_abort {S : Type} (f : S -> value -> result S)
    (pre rest : list value) (item : value) (s0 s : S) (e : exn) :
  forEach_items f pre s0 = Return s ->
  f s item = Throw e ->
  forEach_items f (pre ++ item :: rest) s0 = Throw e.
Proof.
  intros Hpre Hitem. rewrite forEach_items_app, Hpre. simpl.
  rewrite Hitem. reflexivity.
Qed.

(** An entry without a [player] block throws in both loops, whatever the
    mapping holds. *)
Lemma entry_without_player (leagueName : string) (m : PlayerMap)
    (item item_player : value) :
  prop item "player" = Return item_player ->
  defined item_player = false ->
  processScorer parseFloat leagueName m item = Throw TypeError /\
  processAssist m item = Throw TypeError.
Proof.
  intros Hp Hd. unfold processScorer, processAssist. rewrite Hp. simpl.
  destruct item_player; try discriminate; split; reflexivity.
Qed.

(** The bodies of the loops throw nothing but a [TypeError]. *)
Lemma processScorer_cases (leagueName : string) (m : PlayerMap) (item : value) :
  (exists m', processScorer parseFloat leagueName m item = Return m') \/
  processScorer parseFloat leagueName m item = Throw TypeError.
Proof.
  unfold processScorer.
  repeat match goal with
         | |- context [bind (prop ?v ?k) _] =>
             destruct (prop_cases v k) as [[? ->] | ->]; simpl;
             [ | right; reflexivity ]
         | |- context [if ?b then _ else _] => destruct b; simpl
         end; eauto.
Qed.

Lemma processAssist_cases (m : PlayerMap) (item : value) :
  (exists m', processAssist m item = Return m') \/
  processAssist m item = Throw TypeError.
Proof.
  unfold processAssist.
  repeat match goal with
         | |- context [bind (prop ?v ?k) _] =>
             destruct (prop_cases v k) as [[? ->] | ->]; simpl;
             [ | right; reflexivity ]
         | |- context [if ?b then _ else _] => destruct b; simpl
         end; eauto.
Qed.

(** *** Across competitions *)

Lemma mergeFeeds_frame (leagueName : string) (scorers assists_feed : value)
    (m m' : PlayerMap) (k : value) (p : PlayerRecord) :
  map_get m k = Some p ->
  mergeFeeds parseFloat leagueName scorers assists_feed m = Return m' ->
  exists a, map_get m' k = Some (set_assists p a).
Proof.
  unfold mergeFeeds. intros Hget H. bind_inv H.
  apply forEach_Return in Ha as [_ Ha]. apply forEach_Return in H as [_ H].
  eapply assists_get_frame; [ | exact H ].
  eapply scorers_get_old; eauto.
Qed.

Lemma mergeFeeds_unhit (leagueName : string) (scorers assists_feed : value)
    (m m' : PlayerMap) (k : value) (p : PlayerRecord) :
  assist_hits (feed_items assists_feed) k = false ->
  map_get m k = Some p ->
  mergeFeeds parseFloat leagueName scorers assists_feed m = Return m' ->
  map_get m' k = Some p.
Proof.
  unfold mergeFeeds. intros Hhit Hget H. bind_inv H.
  apply forEach_Return in Ha as [_ Ha]. apply forEach_Return in H as [_ H].
  rewrite (assists_get_unhit _ _ _ _ Hhit H).
  eapply scorers_get_old; eauto.
Qed.

Lemma processLeague_inv (cfg : config) (net : network) (m m' : PlayerMap)
    (leagueName : string) (leagueId : Z) :
  processLeague parseFloat cfg net m (leagueName, leagueId) = Return m' ->
  exists scorers assists_feed,
    getTopScorers cfg net leagueId = Return scorers /\
    getTopAssists cfg net leagueId = Return assists_feed /\
    mergeFeeds parseFloat leagueName scorers assists_feed m = Return m'.
Proof.
  unfold processLeague. intro H. bind_inv H. bind_inv H. eauto.
Qed.

Lemma forLeagues_app (cfg : config) (net : network)
    (pre post : list (string * Z)) (m : PlayerMap) :
  forLeagues parseFloat cfg net (pre ++ post) m =
  (m' <- forLeagues parseFloat cfg net pre m ;;
   forLeagues parseFloat cfg net post m').
Proof.
  revert m; induction pre as [| entry pre IH]; intro m; simpl.
  - reflexivity.
  - destruct (processLeague parseFloat cfg net m entry); simpl; auto.
Qed.

Lemma forLeagues_has (cfg : config) (net : network)
    (entries : list (string * Z)) :
  forall m0 m,
    forLeagues parseFloat cfg net entries m0 = Return m ->
    forall k, map_has m k
              = map_has m0 k || existsb (league_lists cfg net k) entries.
Proof.
  induction entries as [| [leagueName leagueId] entries IH];
    intros m0 m H k; simpl in H.
  - injection H as <-. simpl. rewrite orb_false_r. reflexivity.
  - bind_inv H. rewrite (IH _ _ H k).
    apply processLeague_inv in Ha as [scorers [assists_feed [Hs [_ Hmerge]]]].
    rewrite (mergeFeeds_has _ _ _ _ _ Hmerge k). simpl.
    unfold league_lists at 2. simpl. rewrite Hs, orb_assoc. reflexivity.
Qed.

Lemma forLeagues_frame (cfg : config) (net : network)
    (entries : list (string * Z)) (k : value) :
  forall m m' p,
    map_get m k = Some p ->
    forLeagues parseFloat cfg net entries m = Return m' ->
    exists a, map_get m' k = Some (set_assists p a).
Proof.
  induction entries as [| [leagueName leagueId] entries IH];
    intros m m' p Hget H; simpl in H.
  - injection H as <-. exists (assists p). rewrite set_assists_same. exact Hget.
  - bind_inv H.
    apply processLeague_inv in Ha as [scorers [assists_feed [_ [_ Hm]]]].
    destruct (mergeFeeds_frame _ _ _ _ _ _ _ Hget Hm) as [a1 Hmid].
    destruct (IH _ _ _ Hmid H) as [a2 Hend].
    exists a2. exact Hend.
Qed.

Lemma forLeagues_unhit (cfg : config) (net : network)
    (entries : list (string * Z)) (k : value) (p : PlayerRecord) :
  (forall entry feed,
      In entry entries ->
      getTopAssists cfg net (snd entry) = Return feed ->
      assist_hits (feed_items feed) k = false) ->
  forall m m',
    map_get m k = Some p ->
    forLeagues parseFloat cfg net entries m = Return m' ->
    map_get m' k = Some p.
Proof.
  induction entries as [| [leagueName leagueId] entries IH];
    intros Hhits m m' Hget H; simpl in H.
  - congruence.
  - bind_inv H.
    apply processLeague_inv in Ha as [scorers [assists_feed [_ [Hfeed Hm]]]].
    apply (IH (fun entry feed Hin => Hhits entry feed (or_intror Hin)) a m').
    + eapply mergeFeeds_unhit; [ | exact Hget | exact Hm ].
      apply (Hhits (leagueName, leagueId) assists_feed); simpl; auto.
    + exact H.
Qed.

Lemma mergeFeeds_assists (leagueName : string) (scorers assists_feed : value)
    (m m' : PlayerMap) (k : value) (p : PlayerRecord) :
  map_get m k = Some p ->
  mergeFeeds parseFloat leagueName scorers assists_feed m = Return m' ->
  map_get m' k
  = Some (set_assists p
            (assists_after (feed_items assists_feed) k (assists p))).
Proof.
  unfold mergeFeeds. intros Hget H. bind_inv H.
  apply forEach_Return in Ha as [_ Ha]. apply forEach_Return in H as [_ H].
  eapply assists_loop_exact; [ exact H | ].
  eapply scorers_get_old; eauto.
Qed.

Lemma forLeagues_assists (cfg : config) (net : network)
    (entries : list (string * Z)) (k : value) :
  forall m m' p,
    map_get m k = Some p ->
    forLeagues parseFloat cfg net entries m = Return m' ->
    map_get m' k
    = Some (set_assists p (assists_through cfg net entries k (assists p))).
Proof.
  induction entries as [| [leagueName leagueId] entries IH];
    intros m m' p Hget H; simpl in H.
  - injection H as <-. simpl. rewrite set_assists_same. exact Hget.
  - bind_inv H.
    apply processLeague_inv in Ha as [scorers [assists_feed [_ [Hfeed Hm]]]].
    pose proof (mergeFeeds_assists _ _ _ _ _ _ _ Hget Hm) as Hmid.
    rewrite (IH _ _ _ Hmid H). cbn [assists_through snd]. rewrite Hfeed.
    reflexivity.
Qed.

Lemma assists_through_app (cfg : config) (net : network)
    (l1 l2 : list (string * Z)) (x : value) :
  forall current,
    assists_through cfg net (l1 ++ l2) x current
    = assists_through cfg net l2 x (assists_through cfg net l1 x current).
Proof.
  induction l1 as [| entry l1 IH]; intro current; simpl; auto.
Qed.

Lemma assists_through_unhit (cfg : config) (net : network)
    (entries : list (string * Z)) (x : value) :
  (forall entry feed,
      In entry entries ->
      getTopAssists cfg net (snd entry) = Return feed ->
      assist_hits (feed_items feed) x = false) ->
  forall current, assists_through cfg net entries x current = current.
Proof.
  induction entries as [| entry entries IH]; intros Hhits current; simpl.
  - reflexivity.
  - rewrite (IH (fun e feed Hin => Hhits e feed (or_intror Hin))).
    destruct (getTopAssists cfg net (snd entry)) as [feed | e |] eqn:E;
      try reflexivity.
    apply assists_after_unhit. apply (Hhits entry feed); simpl; auto.
Qed.

(** C2, as the code has it.  A record that is in the global mapping after
    the competitions [pre] keeps every field but [assists] while the later
    competitions [post] are processed: their scorer feeds never touch it,
    and their assist feeds replace its assists, entry by entry, by every
    truthy assist count that they carry for the player.  So the record is
    the same at the end when no later assist feed has an entry for the
    player with a truthy assist count; and otherwise its assists are the
    count of the last such entry: of the entry [item] of the feed of the
    competition [leagueId] when no entry after it in that feed, and none
    in the feeds of the competitions after it, is one. *)
Theorem later_competitions_change_assists_only (cfg : config) (net : network)
    (pre post : list (string * Z)) (m1 m2 : PlayerMap)
    (x : value) (r : PlayerRecord) :
  forLeagues parseFloat cfg net pre [] = Return m1 ->
  forLeagues parseFloat cfg net (pre ++ post) [] = Return m2 ->
  map_get m1 x = Some r ->
  map_get m2 x
  = Some (set_assists r (assists_through cfg net post x (assists r))) /\
  ((forall entry feed,
       In entry post ->
       getTopAssists cfg net (snd entry) = Return feed ->
       assist_hits (feed_items feed) x = false) ->
   map_get m2 x = Some r) /\
  (forall post1 post2 leagueName leagueId before after item pid aa,
      post = post1 ++ (leagueName, leagueId) :: post2 ->
      getTopAssists cfg net leagueId
      = Return (VArr (before ++ item :: after)) ->
      playerIdOf item = Return pid ->
      same_value_zero pid x = true ->
      assistsOf item = Return aa ->
      truthy aa = true ->
      assist_hits after x = false ->
      (forall entry feed,
          In entry post2 ->
          getTopAssists cfg net (snd entry) = Return feed ->
          assist_hits (feed_items feed) x = false) ->
      map_get m2 x = Some (set_assists r aa)).
Proof.
  intros H1 H2 Hget. rewrite forLeagues_app, H1 in H2. simpl in H2.
  pose proof (forLeagues_assists _ _ _ _ _ _ _ Hget H2) as Hexact.
  split; [ exact Hexact | split ].
  - intro Hhits. eapply forLeagues_unhit; eauto.
  - intros post1 post2 leagueName leagueId before after item pid aa
           -> Hfeed Hpid Hsame Haa Htruthy Hafter Hlater.
    rewrite Hexact. do 2 f_equal.
    rewrite assists_through_app. cbn [assists_through snd].
    rewrite Hfeed, (assists_through_unhit _ _ _ _ Hlater).
    cbn [feed_items]. rewrite assists_after_app. cbn [assists_after].
    rewrite Hpid, Haa, Hsame, Htruthy. cbn [andb].
    apply assists_after_unhit, Hafter.
Qed.

(** *** Failed fetches *)

Lemma fetchFromAPI_cases (cfg : config) (net : network) (endpoint : string)
    (leagueId : Z) :
  (exists data, fetchFromAPI cfg net endpoint leagueId = Return data) \/
  (exists e, fetchFromAPI cfg net endpoint leagueId = Throw e).
Proof.
  unfold fetchFromAPI.
  destruct (net _) as [| status [data |]]; eauto;
    destruct (response_ok status); eauto.
  destruct (prop_cases data "response") as [[x ->] | ->]; eauto.
Qed.

(** The feed client never throws. *)
Lemma getTopScorers_ok (cfg : config) (net : network) (leagueId : Z) :
  exists feed, getTopScorers cfg net leagueId = Return feed.
Proof.
  unfold getTopScorers.
  destruct (fetchFromAPI_cases cfg net "players/topscorers" leagueId)
    as [[data ->] | [e ->]]; simpl; eauto.
Qed.

Lemma getTopAssists_ok (cfg : config) (net : network) (leagueId : Z) :
  exists feed, getTopAssists cfg net leagueId = Return feed.
Proof.
  unfold getTopAssists.
  destruct (fetchFromAPI_cases cfg net "players/topassists" leagueId)
    as [[data ->] | [e ->]]; simpl; eauto.
Qed.

(** A competition whose scorer fetch alone fails adds no player. *)
Lemma failed_scorer_fetch_adds_no_player (cfg : config) (net : network)
    (leagueName : string) (leagueId : Z) (e : exn) (m m' : PlayerMap) :
  fetchFromAPI cfg net "players/topscorers" leagueId = Throw e ->
  processLeague parseFloat cfg net m (leagueName, leagueId) = Return m' ->
  map_keys m' = map_keys m.
Proof.
  intros H1 H.
  apply processLeague_inv in H as [scorers [assists_feed [Hs [_ H]]]].
  unfold getTopScorers in Hs. rewrite H1 in Hs. injection Hs as <-.
  unfold mergeFeeds in H. simpl in H.
  apply forEach_Return in H as [_ H]. eapply assists_keys; eauto.
Qed.

End MergeProperties.

(** *** Ranking *)

Lemma sort_insert_perm (x : RankedPlayer) (l : list RankedPlayer) :
  Permutation (x :: l) (sort_insert compareFn x l).
Proof.
  induction l as [| y l IH]; simpl.
  - apply Permutation_refl.
  - destruct (compareFn x y <=? 0).
    + apply Permutation_refl.
    + eapply perm_trans; [ apply perm_swap | apply perm_skip, IH ].
Qed.

Lemma array_sort_perm (l : list RankedPlayer) :
  Permutation l (array_sort compareFn l).
Proof.
  induction l as [| x l IH]; simpl.
  - apply perm_nil.
  - eapply perm_trans; [ apply perm_skip, IH | apply sort_insert_perm ].
Qed.

Lemma sort_insert_descending (x : RankedPlayer) (l : list RankedPlayer) :
  descending l -> descending (sort_insert compareFn x l).
Proof.
  unfold descending.
  induction l as [| y l IH]; intro Hl; simpl.
  - constructor; constructor.
  - inversion Hl as [| y' l' Hrest Hall]; subst.
    unfold compareFn at 1.
    destruct (goalsAndAssists y - goalsAndAssists x <=? 0) eqn:E.
    + apply Z.leb_le in E. constructor; [ exact Hl | ].
      constructor; [ lia | ].
      eapply Forall_impl; [ | exact Hall ]. simpl. intros z Hz. lia.
    + apply Z.leb_gt in E. constructor; [ apply IH, Hrest | ].
      apply (Permutation_Forall (sort_insert_perm x l)).
      constructor; [ lia | exact Hall ].
Qed.

Lemma array_sort_descending (l : list RankedPlayer) :
  descending (array_sort compareFn l).
Proof.
  induction l as [| x l IH]; simpl.
  - constructor.
  - apply sort_insert_descending, IH.
Qed.

Lemma sort_insert_scoring (k : Z) (x : RankedPlayer) (l : list RankedPlayer) :
  scoring k (sort_insert compareFn x l) = scoring k (x :: l).
Proof.
  unfold scoring.
  induction l as [| y l IH]; simpl.
  - reflexivity.
  - unfold compareFn at 1.
    destruct (goalsAndAssists y - goalsAndAssists x <=? 0) eqn:E.
    + reflexivity.
    + apply Z.leb_gt in E. simpl. rewrite IH. simpl.
      destruct (goalsAndAssists y =? k) eqn:Ey;
        destruct (goalsAndAssists x =? k) eqn:Ex; try reflexivity.
      apply Z.eqb_eq in Ey, Ex. lia.
Qed.

(** The sort is stable: players with the same score keep their order. *)
Lemma array_sort_scoring (k : Z) (l : list RankedPlayer) :
  scoring k (array_sort compareFn l) = scoring k l.
Proof.
  induction l as [| x l IH]; simpl.
  - reflexivity.
  - rewrite sort_insert_scoring. unfold scoring in *. simpl. rewrite IH.
    reflexivity.
Qed.

Lemma descending_firstn (n : nat) (l : list RankedPlayer) :
  descending l -> descending (firstn n l).
Proof.
  unfold descending. revert l; induction n as [| n IH]; intros l Hl; simpl.
  - constructor.
  - destruct l as [| x l]; [ constructor | ].
    inversion Hl as [| x' l' Hrest Hall]; subst.
    constructor; [ apply IH, Hrest | ].
    apply Forall_forall. intros z Hz.
    rewrite Forall_forall in Hall. apply Hall.
    rewrite <- (firstn_skipn n l). apply in_or_app. left. exact Hz.
Qed.

Lemma map_result_length {A B : Type} (f : A -> result B) (l : list A) :
  forall l', map_result f l = Return l' -> List.length l' = List.length l.
Proof.
  induction l as [| x l IH]; intros l' H; simpl in H.
  - injection H as <-. reflexivity.
  - bind_inv H. bind_inv H. injection H as <-. simpl. f_equal. auto.
Qed.

Lemma map_result_In {A B : Type} (f : A -> result B) (l : list A) :
  forall l' y, map_result f l = Return l' -> In y l' ->
               exists x, In x l /\ f x = Return y.
Proof.
  induction l as [| x l IH]; intros l' y H Hy; simpl in H.
  - injection H as <-. destruct Hy.
  - bind_inv H. bind_inv H. injection H as <-. destruct Hy as [<- | Hy].
    + exists x. split; [ left; reflexivity | exact Ha ].
    + destruct (IH _ _ Ha0 Hy) as [x' [Hin Hx']].
      exists x'. split; [ right; exact Hin | exact Hx' ].
Qed.

Lemma In_firstn {A : Type} (n : nat) (l : list A) (x : A) :
  In x (firstn n l) -> In x l.
Proof.
  intro H. rewrite <- (firstn_skipn n l). apply in_or_app. left. exact H.
Qed.

Lemma map_result_Forall2 {A B : Type} (f : A -> result B) (l : list A) :
  forall l', map_result f l = Return l' ->
             Forall2 (fun x y => f x = Return y) l l'.
Proof.
  induction l as [| x l IH]; intros l' H; simpl in H.
  - injection H as <-. constructor.
  - bind_inv H. bind_inv H. injection H as <-. constructor; auto.
Qed.

(** The score that [derive] stores is the sum of the goals and the assists
    of the record it is derived from. *)
Lemma derive_score (player : PlayerRecord) (r : RankedPlayer) :
  derive player = Return r ->
  base r = player /\ combinedScore player = Some (goalsAndAssists r).
Proof.
  unfold derive, combinedScore. intro H.
  destruct (goals player) as [| | | | g | | |]; try discriminate.
  destruct (assists player) as [| | | | a | | |]; try discriminate.
  destruct (appearances player) as [| | | | n | | |]; try discriminate.
  destruct (safe g && safe a && safe n && safe (g + a)); try discriminate.
  injection H as <-. split; reflexivity.
Qed.

Lemma StronglySorted_In_impl {A : Type} (R R' : A -> A -> Prop)
    (l : list A) :
  (forall a b, In a l -> In b l -> R a b -> R' a b) ->
  StronglySorted R l -> StronglySorted R' l.
Proof.
  induction l as [| x l IH]; intros Himpl H.
  - constructor.
  - inversion H as [| x' l' Hrest Hall]; subst. constructor.
    + apply IH; [ | exact Hrest ].
      intros a b Ha Hb. apply Himpl; right; assumption.
    + rewrite Forall_forall in *. intros b Hb.
      apply Himpl; [ left; reflexivity | right; exact Hb | apply Hall, Hb ].
Qed.

(** C4. The leaderboard is sorted by the combined score, goals plus
    assists, descending: [goalsAndAssists] of every derived record is the
    sum of the goals and the assists of the record of the mapping it is
    derived from, the derived records stand in the order of the mapping,
    and the leaderboard is descending by that sum.  Players with equal
    scores stand in the order in which the mapping holds them (for every
    score, the players of the leaderboard with that score are the first
    ones of the mapping with that score, in the same order); the length of
    the leaderboard is the smaller of [TOP_PLAYERS_COUNT] (10 as
    configured) and the number of players in the mapping; the empty
    mapping gives the empty leaderboard. *)
Theorem ranking_sorted_stable_bounded (cfg : config) (allPlayers : PlayerMap)
    (topPlayers : list RankedPlayer) :
  rankPlayers cfg allPlayers = Return topPlayers ->
  exists playersArray,
    map_result derive (map_values allPlayers) = Return playersArray /\
    Forall2 (fun player r =>
               base r = player /\
               combinedScore player = Some (goalsAndAssists r))
            (map_values allPlayers) playersArray /\
    (forall r, In r topPlayers ->
               combinedScore (base r) = Some (goalsAndAssists r)) /\
    descending topPlayers /\
    descending_by_score topPlayers /\
    (forall k, exists rest,
        scoring k playersArray = scoring k topPlayers ++ rest) /\
    (exists rest, Permutation playersArray (topPlayers ++ rest)) /\
    List.length topPlayers =
      Nat.min (TOP_PLAYERS_COUNT cfg) (List.length (map_keys allPlayers)) /\
    TOP_PLAYERS_COUNT CONFIG = 10%nat /\
    rankPlayers cfg [] = Return [].
Proof.
  unfold rankPlayers. intro H. bind_inv H. rename a into playersArray.
  injection H as <-. exists playersArray.
  assert (Hscores : forall r,
             In r (firstn (TOP_PLAYERS_COUNT cfg)
                     (array_sort compareFn playersArray)) ->
             combinedScore (base r) = Some (goalsAndAssists r)).
  { intros r Hin. apply In_firstn in Hin.
    apply (Permutation_in _ (Permutation_sym (array_sort_perm playersArray)))
      in Hin.
    destruct (map_result_In _ _ _ _ Ha Hin) as [player [_ Hder]].
    apply derive_score in Hder as [<- Hscore]. exact Hscore. }
  assert (Hsorted : descending
                      (firstn (TOP_PLAYERS_COUNT cfg)
                         (array_sort compareFn playersArray)))
    by apply descending_firstn, array_sort_descending.
  split; [ exact Ha | ].
  split.
  { eapply Forall2_impl; [ | apply map_result_Forall2, Ha ].
    intros player r Hder. apply derive_score, Hder. }
  split; [ exact Hscores | ].
  split; [ exact Hsorted | ].
  split.
  { eapply StronglySorted_In_impl; [ | exact Hsorted ].
    intros a b Hina Hinb Hle. simpl in Hle.
    exists (goalsAndAssists a), (goalsAndAssists b).
    split; [ apply Hscores, Hina | ]. split; [ apply Hscores, Hinb | ].
    exact Hle. }
  split; [ | split; [ | split; [ | split ] ] ].
  - intro k. exists (scoring k (skipn (TOP_PLAYERS_COUNT cfg)
                                  (array_sort compareFn playersArray))).
    rewrite <- (array_sort_scoring k playersArray).
    unfold scoring. rewrite <- filter_app, firstn_skipn. reflexivity.
  - exists (skipn (TOP_PLAYERS_COUNT cfg) (array_sort compareFn playersArray)).
    rewrite firstn_skipn. apply array_sort_perm.
  - rewrite length_firstn.
    rewrite <- (Permutation_length (array_sort_perm playersArray)).
    rewrite (map_result_length _ _ _ Ha).
    unfold map_values, map_keys. rewrite !length_map. reflexivity.
  - reflexivity.
  - simpl. destruct (TOP_PLAYERS_COUNT cfg); reflexivity.
Qed.

(** *** Derived fields *)

Lemma round_half_even_error (num den : Z) :
  0 < den -> 2 * Z.abs (round_half_even num den * den - num) <= den.
Proof.
  intro Hden. unfold round_half_even.
  pose proof (Z.div_mod num den ltac:(lia)) as Hdm.
  pose proof (Z.mod_pos_bound num den Hden) as Hr.
  destruct (2 * (num mod den) <? den) eqn:E1.
  - apply Z.ltb_lt in E1. lia.
  - apply Z.ltb_ge in E1. destruct (den <? 2 * (num mod den)) eqn:E2.
    + apply Z.ltb_lt in E2. lia.
    + apply Z.ltb_ge in E2. destruct (Z.even (num / den)); lia.
Qed.

(** Dividing two integers as doubles and printing the quotient with two
    decimals gives one of the hundredths nearest to the exact quotient. *)
Lemma hundredths_nearest (g n : Z) :
  0 < g -> 0 < n -> 200 * g < 2 ^ 53 ->
  2 * Z.abs (100 * g - hundredths (double_div g n) * n) <= n.
Proof.
  intros Hg Hn Hsmall.
  pose proof (Z.log2_spec g Hg) as [Hlg1 Hlg2].
  pose proof (Z.log2_spec n Hn) as [Hln1 Hln2].
  pose proof (Z.log2_nonneg g) as Hlg0.
  pose proof (Z.log2_nonneg n) as Hln0.
  assert (Hlg : Z.log2 g < 46).
  { apply Z.log2_lt_pow2; [ exact Hg | ]. change (2 ^ 46) with 70368744177664.
    change (2 ^ 53) with 9007199254740992 in Hsmall. lia. }
  unfold double_div.
  set (s0 := 52 + Z.log2 n - Z.log2 g).
  assert (Hs0 : 0 < s0) by (unfold s0; lia).
  set (s := if g * pow2 s0 <? 2 ^ 52 * n * pow2 (- s0) then s0 + 1 else s0).
  assert (Hs : 0 < s /\ 2 ^ 52 * n <= g * 2 ^ s).
  { assert (Hp1 : pow2 s0 = 2 ^ s0)
      by (unfold pow2; rewrite Z.max_l by lia; reflexivity).
    assert (Hp2 : pow2 (- s0) = 1)
      by (unfold pow2; rewrite Z.max_r by lia; reflexivity).
    unfold s. rewrite Hp1, Hp2, Z.mul_1_r.
    destruct (g * 2 ^ s0 <? 2 ^ 52 * n) eqn:E.
    - split; [ lia | ].
      assert (E2 : 2 ^ Z.log2 g * 2 ^ (s0 + 1)
                   = 2 ^ 52 * 2 ^ Z.succ (Z.log2 n)).
      { rewrite <- !Z.pow_add_r by lia. f_equal. unfold s0. lia. }
      assert (0 < 2 ^ 52) by (apply Z.pow_pos_nonneg; lia).
      assert (0 < 2 ^ (s0 + 1)) by (apply Z.pow_pos_nonneg; lia).
      transitivity (2 ^ 52 * 2 ^ Z.succ (Z.log2 n)).
      + apply Z.mul_le_mono_nonneg_l; lia.
      + rewrite <- E2. apply Z.mul_le_mono_nonneg_r; lia.
    - apply Z.ltb_ge in E. split; [ lia | lia ]. }
  destruct Hs as [Hs Hbinade].
  assert (Hq1 : pow2 s = 2 ^ s)
    by (unfold pow2; rewrite Z.max_l by lia; reflexivity).
  assert (Hq2 : pow2 (- s) = 1)
    by (unfold pow2; rewrite Z.max_r by lia; reflexivity).
  unfold hundredths. rewrite Hq1, Hq2, !Z.mul_1_r.
  set (P := 2 ^ s) in *.
  assert (HP : 0 < P) by (apply Z.pow_pos_nonneg; lia).
  set (m := round_half_even (g * P) n).
  pose proof (round_half_even_error (g * P) n Hn) as Herr. fold m in Herr.
  set (h := (200 * m + P) / (2 * P)).
  pose proof (Z.div_mod (200 * m + P) (2 * P) ltac:(lia)) as Hdm.
  pose proof (Z.mod_pos_bound (200 * m + P) (2 * P) ltac:(lia)) as Hr.
  fold h in Hdm.
  set (d := (200 * m + P) mod (2 * P)) in *.
  assert (Hwide : 100 * n < P).
  { change (2 ^ 53) with (2 * 2 ^ 52) in Hsmall.
    assert (0 < 2 ^ 52) by (apply Z.pow_pos_nonneg; lia). nia. }
  assert (Hkey : Z.abs (P * (200 * g - 2 * h * n)) < P * (n + 1)) by nia.
  destruct (Z_le_gt_dec (Z.abs (200 * g - 2 * h * n)) n) as [Hok | Hbad].
  - lia.
  - exfalso. rewrite Z.abs_mul, (Z.abs_eq P) in Hkey by lia. nia.
Qed.

(** On a tie the double decides: 1/8 is a double and goes up; 3/200 is
    not, the double next to it lies below, and it goes down. *)
Example toFixed2_ties :
  toFixed2 1 8 = "0.13" /\ toFixed2 3 200 = "0.01" /\
  toFixed2 1 200 = "0.01" /\ toFixed2 201 200 = "1.00" /\
  toFixed2 0 5 = "0.00" /\ toFixed2 10 20 = "0.50".
Proof. repeat split; reflexivity. Qed.

Lemma toFixed2_nearest (g n : Z) :
  0 <= g -> 0 < n -> 200 * g < 2 ^ 53 ->
  exists h, toFixed2 g n = fixed2_text false h /\
            2 * Z.abs (100 * g - h * n) <= n.
Proof.
  intros Hg Hn Hsmall. unfold toFixed2.
  destruct (g =? 0) eqn:E.
  - apply Z.eqb_eq in E. subst g. exists 0. split; [ reflexivity | lia ].
  - apply Z.eqb_neq in E.
    exists (hundredths (double_div g n)). split.
    + rewrite Z.abs_eq by lia.
      replace (g <? 0) with false by (symmetry; apply Z.ltb_ge; lia).
      reflexivity.
    + apply hundredths_nearest; lia.
Qed.

Lemma derive_Return (player : PlayerRecord) (r : RankedPlayer) :
  derive player = Return r ->
  exists g a n,
    base r = player /\
    goals player = VNum g /\ assists player = VNum a /\
    appearances player = VNum n /\
    goalsAndAssists r = g + a /\
    goalsPerGame r = (if 0 <? n then VStr (toFixed2 g n) else VNum 0).
Proof.
  unfold derive. intro H.
  destruct (goals player) as [| | | | g | | |]; try discriminate.
  destruct (assists player) as [| | | | a | | |]; try discriminate.
  destruct (appearances player) as [| | | | n | | |]; try discriminate.
  destruct (safe g && safe a && safe n && safe (g + a)); try discriminate.
  injection H as <-. exists g, a, n. simpl. repeat split; reflexivity.
Qed.

(** C6. For every record of the leaderboard, [goalsAndAssists] is goals
    plus assists; [goalsPerGame] is the number 0 when the appearances are
    0, and otherwise the text that [toFixed(2)] prints for the quotient of
    goals by appearances: a number of hundredths [h] that is nearest to the
    exact quotient (printed with two decimals, "2.33" for 7 goals in 3
    appearances). *)
Theorem derived_fields (cfg : config) (allPlayers : PlayerMap)
    (topPlayers : list RankedPlayer) (r : RankedPlayer) :
  rankPlayers cfg allPlayers = Return topPlayers ->
  In r topPlayers ->
  exists g a n,
    In (base r) (map_values allPlayers) /\
    goals (base r) = VNum g /\ assists (base r) = VNum a /\
    appearances (base r) = VNum n /\
    goalsAndAssists r = g + a /\
    (n = 0 -> goalsPerGame r = VNum 0) /\
    (0 < n -> goalsPerGame r = VStr (toFixed2 g n)) /\
    (0 < n -> 0 <= g -> 200 * g < 2 ^ 53 ->
     exists h, goalsPerGame r = VStr (fixed2_text false h) /\
               2 * Z.abs (100 * g - h * n) <= n) /\
    toFixed2 7 3 = "2.33".
Proof.
  unfold rankPlayers. intros H Hin. bind_inv H. injection H as <-.
  apply In_firstn in Hin.
  apply (Permutation_in _ (Permutation_sym (array_sort_perm a))) in Hin.
  destruct (map_result_In _ _ _ _ Ha Hin) as [player [Hplayer Hderive]].
  apply derive_Return in Hderive
    as [g [a' [n [Hbase [Hg [Ha' [Hn [Hsum Hrate]]]]]]]].
  exists g, a', n. rewrite Hbase.
  repeat (split; [ assumption | ]).
  split; [ | split; [ | split ] ].
  - intros ->. rewrite Hrate. reflexivity.
  - intro Hpos. rewrite Hrate.
    replace (0 <? n) with true by (symmetry; apply Z.ltb_lt; exact Hpos).
    reflexivity.
  - intros Hpos Hg0 Hsmall.
    destruct (toFixed2_nearest g n Hg0 Hpos Hsmall) as [h [Htext Hnear]].
    exists h. split; [ | exact Hnear ].
    rewrite Hrate.
    replace (0 <? n) with true by (symmetry; apply Z.ltb_lt; exact Hpos).
    rewrite Htext. reflexivity.
  - reflexivity.
Qed.

(** *** The snapshot cache *)


Section ManagerProperties.

Variable parseFloat : value -> value.

(** C10. The age of the snapshot is looked at once, by the constructor.
    When the constructor found a fresh snapshot with a player list, every
    call of [getAllPlayers] returns that list, whatever the clock, the
    network and the storage are by then, sends no request and writes
    nothing; after the refresh handler has set the cache to [null] the
    call fetches. *)
Theorem cache_age_checked_at_construction (cfg : config) (now0 : Z)
    (ls0 : localStorage) (data : snapshot) :
  constructor cfg now0 ls0 = Some data ->
  truthy (players data) = true ->
  (forall now net ls,
      getAllPlayers parseFloat cfg (constructor cfg now0 ls0) now net ls
      = {| outcome := Return (players data); storage := ls; requests := [] |})
  /\
  (forall now net ls cache' ls',
      invalidate (constructor cfg now0 ls0) ls = Return (cache', ls') ->
      getAllPlayers parseFloat cfg cache' now net ls'
      = fetchAllPlayers parseFloat cfg now net ls').
Proof.
  intros Hc Hplayers. split.
  - intros now net ls. rewrite Hc. unfold getAllPlayers. rewrite Hplayers.
    reflexivity.
  - intros now net ls cache' ls' H. unfold invalidate in H. bind_inv H.
    injection H as <- <-. reflexivity.
Qed.

End ManagerProperties.

(** *** The check of the API key *)

(** C9, the code at the configuration as shipped.  With [API_KEY] still
    the placeholder, [initialize] does not show the API key warning: it
    runs the aggregation, sends the four requests with the placeholder as
    the key, and, every one of them failing, shows a grid without cards.
    The warning is shown, and nothing is sent, only for a key equal to the
    literal of line 353. *)
Theorem placeholder_key_is_not_detected :
  API_KEY CONFIG = "YOUR_API_KEY_HERE" /\
  (exists s,
      initialize parse_rating CONFIG None 0 offline empty_storage full_page
      = Return s /\
      player_grid (view s) = Some (Cards []) /\
      last_updated (view s) = Stamped /\
      view s <> showAPIKeyWarning full_page /\
      map rapidapi_key (sent s)
      = ["YOUR_API_KEY_HERE"; "YOUR_API_KEY_HERE";
         "YOUR_API_KEY_HERE"; "YOUR_API_KEY_HERE"]) /\
  (forall pg,
      exists s,
        initialize parse_rating CONFIG None 0 offline empty_storage pg
        = Return s /\
        player_grid (view s) <> Some ApiKeyWarning /\
        List.length (sent s) = 4%nat) /\
  forall pg,
    initialize parse_rating
      {| API_KEY := "57f67398e65a9dd967d70fe6ecfd76df";
         LEAGUES := LEAGUES CONFIG; SEASON := SEASON CONFIG;
         CACHE_DURATION := CACHE_DURATION CONFIG;
         TOP_PLAYERS_COUNT := TOP_PLAYERS_COUNT CONFIG |}
      None 0 offline empty_storage pg
    = Return {| view := showAPIKeyWarning pg; store := empty_storage;
                sent := [] |} /\
    forall g, showAPIKeyWarning (set_grid pg g) = set_grid pg ApiKeyWarning.
Proof.
  split; [ reflexivity | split; [ | split ] ].
  - eexists. split; [ vm_compute; reflexivity | ].
    split; [ reflexivity | ]. split; [ reflexivity | ].
    split; [ discriminate | reflexivity ].
  - intros [[g|] [] []]; eexists;
      (split; [ vm_compute; reflexivity | ]);
      (split; [ cbn; discriminate | reflexivity ]).
  - intros pg. split; reflexivity.
Qed.

(** The end-to-end example of the specification: player 3, who is in the
    assist feed only, is dropped; player 1 takes the assists of the assist
    feed; the leaderboard is player 1 (15) before player 2 (9). *)
Example end_to_end :
  map (fun entry => (fst entry, goals (snd entry), assists (snd entry)))
      merged_39
  = [(VNum 1, VNum 10, VNum 5); (VNum 2, VNum 8, VNum 1)] /\
  match rankPlayers CONFIG merged_39 with
  | Return topPlayers =>
      map (fun r => (id (base r), goalsAndAssists r)) topPlayers
      = [(VNum 1, 15); (VNum 2, 9)]
  | _ => False
  end.
Proof. split; reflexivity. Qed.

(** *** Well-formed feeds are merged and ranked *)

Lemma prop_defined (v : value) (k : string) :
  defined v = true -> exists x, prop v k = Return x.
Proof.
  destruct v; simpl; intro H; try discriminate; eauto.
  - destruct (String.eqb k "0"); eauto. destruct s; eauto.
  - destruct (String.eqb k "0"); eauto.
Qed.

Lemma reads_object_inv (c : result value) :
  reads_object c = true -> exists v, c = Return v /\ defined v = true.
Proof.
  destruct c as [v | e |]; simpl; intro H; try discriminate. eauto.
Qed.

Lemma well_formed_inv (item : value) :
  well_formed item = true ->
  exists player statistics stats stats_team games stats_goals,
    prop item "player" = Return player /\ defined player = true /\
    prop item "statistics" = Return statistics /\
    prop statistics "0" = Return stats /\
    prop stats "team" = Return stats_team /\ defined stats_team = true /\
    prop stats "games" = Return games /\ defined games = true /\
    prop stats "goals" = Return stats_goals /\ defined stats_goals = true.
Proof.
  unfold well_formed. intro H.
  apply andb_true_iff in H as [H Hgoals].
  apply andb_true_iff in H as [H Hgames].
  apply andb_true_iff in H as [Hplayer Hteam].
  apply reads_object_inv in Hplayer as [player [Hplayer Hdp]].
  apply reads_object_inv in Hteam as [stats_team [Hteam Hdt]].
  apply reads_object_inv in Hgames as [games [Hgames Hdg]].
  apply reads_object_inv in Hgoals as [stats_goals [Hgoals Hdo]].
  bind_inv Hteam. rename a into stats.
  rewrite Ha in Hgames, Hgoals. simpl in Hgames, Hgoals.
  apply statsOf_inv in Ha as [statistics [Hst H0]].
  exists player, statistics, stats, stats_team, games, stats_goals.
  repeat split; assumption.
Qed.

Ltac read_defined :=
  repeat match goal with
         | Hd : defined ?v = true |- context [prop ?v ?k] =>
             let x := fresh "x" in
             let Hx := fresh "Hx" in
             destruct (prop_defined v k Hd) as [x Hx]; rewrite Hx; simpl
         end.

Section WellFormedFeeds.

Variable parseFloat : value -> value.

Lemma processScorer_well_formed (leagueName : string) (m : PlayerMap)
    (item : value) :
  well_formed item = true ->
  exists m', processScorer parseFloat leagueName m item = Return m'.
Proof.
  intro H. apply well_formed_inv in H
    as [player [statistics [stats [stats_team [games [stats_goals
       [Hp [Hdp [Hst [H0 [Ht [Hdt [Hg [Hdg [Ho Hdo]]]]]]]]]]]]]]].
  unfold processScorer. rewrite Hp. simpl.
  destruct (prop_defined player "id" Hdp) as [pid Hpid].
  rewrite Hpid. simpl. rewrite Hst. simpl. rewrite H0. simpl.
  destruct (map_has m pid); simpl; [ eauto | ].
  read_defined. rewrite Ht. simpl. read_defined.
  rewrite Hg. simpl. read_defined. rewrite Ho. simpl. read_defined.
  eauto.
Qed.

Lemma processAssist_well_formed (m : PlayerMap) (item : value) :
  well_formed item = true ->
  exists m', processAssist m item = Return m'.
Proof.
  intro H. apply well_formed_inv in H
    as [player [statistics [stats [stats_team [games [stats_goals
       [Hp [Hdp [Hst [H0 [Ht [Hdt [Hg [Hdg [Ho Hdo]]]]]]]]]]]]]]].
  unfold processAssist. rewrite Hp. simpl.
  destruct (prop_defined player "id" Hdp) as [pid Hpid].
  rewrite Hpid. simpl.
  destruct (map_has m pid); simpl; [ | eauto ].
  rewrite Hst. simpl. rewrite H0. simpl. rewrite Ho. simpl. read_defined.
  eauto.
Qed.

Lemma forEach_items_total {S : Type} (f : S -> value -> result S)
    (items : list value) :
  (forall s item, In item items -> exists s', f s item = Return s') ->
  forall s, exists s', forEach_items f items s = Return s'.
Proof.
  induction items as [| item items IH]; intros Hf s; simpl.
  - eauto.
  - destruct (Hf s item (or_introl eq_refl)) as [s1 ->]. simpl.
    apply IH. intros s0 item0 Hin. apply Hf. right. exact Hin.
Qed.

(** The merge of feeds whose entries are well-formed returns a mapping. *)
Lemma mergeFeeds_well_formed (leagueName : string)
    (scorers assists_feed : list value) (m : PlayerMap) :
  forallb well_formed scorers = true ->
  forallb well_formed assists_feed = true ->
  exists m',
    mergeFeeds parseFloat leagueName (VArr scorers) (VArr assists_feed) m
    = Return m'.
Proof.
  intros Hs Ha. unfold mergeFeeds. simpl.
  rewrite forallb_forall in Hs, Ha.
  destruct (forEach_items_total (processScorer parseFloat leagueName) scorers
              (fun s item Hin =>
                 processScorer_well_formed leagueName s item (Hs item Hin)) m)
    as [m1 ->].
  simpl.
  apply forEach_items_total. intros s item Hin.
  apply processAssist_well_formed, Ha, Hin.
Qed.

End WellFormedFeeds.

(** *** A competition whose fetches fail *)

Section FailedFetch.

Variable parseFloat : value -> value.

(** Leagues whose feeds are arrays of well-formed entries are all
    processed. *)
Lemma forLeagues_well_formed (cfg : config) (net : network)
    (entries : list (string * Z)) :
  forallb (league_well_formed cfg net) entries = true ->
  forall m, exists m', forLeagues parseFloat cfg net entries m = Return m'.
Proof.
  induction entries as [| [leagueName leagueId] entries IH]; intros H m.
  - simpl. eauto.
  - cbn [forallb] in H. apply andb_true_iff in H as [Hhere Hrest].
    unfold league_well_formed in Hhere. cbn [snd] in Hhere.
    cbn [forLeagues]. unfold processLeague.
    destruct (getTopScorers cfg net leagueId) as [scorers | |];
      try discriminate.
    destruct scorers as [| | | | | | scorers |]; try discriminate.
    destruct (getTopAssists cfg net leagueId) as [assists_feed | |];
      try discriminate.
    destruct assists_feed as [| | | | | | assists_feed |]; try discriminate.
    apply andb_true_iff in Hhere as [Hs Ha]. cbn [bind].
    destruct (mergeFeeds_well_formed parseFloat leagueName scorers
                assists_feed m Hs Ha) as [m1 ->].
    cbn [bind]. apply IH, Hrest.
Qed.

(** C8. When the fetches of a competition fail (the request is rejected,
    the status is not a success, the body is not JSON or is [null]), the
    feed client returns the empty array instead of throwing, and the
    competition leaves the mapping as it was: it contributes no record.
    The loop over the competitions goes on: it ends as if that competition
    were not configured, the mapping it returns holds, besides the players
    it started with, exactly the players of the scorer feeds of the
    remaining competitions, and it does return a mapping whenever the
    feeds of the remaining competitions are arrays of well-formed
    entries. *)
Theorem failed_fetch_contributes_nothing (cfg : config) (net : network)
    (leagueName : string) (leagueId : Z) (e1 e2 : exn) :
  fetchFromAPI cfg net "players/topscorers" leagueId = Throw e1 ->
  fetchFromAPI cfg net "players/topassists" leagueId = Throw e2 ->
  getTopScorers cfg net leagueId = Return (VArr []) /\
  getTopAssists cfg net leagueId = Return (VArr []) /\
  (forall m,
      processLeague parseFloat cfg net m (leagueName, leagueId) = Return m) /\
  (forall pre post m,
      forLeagues parseFloat cfg net (pre ++ (leagueName, leagueId) :: post) m
      = forLeagues parseFloat cfg net (pre ++ post) m) /\
  (forall pre post m m',
      forLeagues parseFloat cfg net (pre ++ (leagueName, leagueId) :: post) m
      = Return m' ->
      forall k,
        map_has m' k
        = map_has m k || existsb (league_lists cfg net k) (pre ++ post)) /\
  (forall pre post m,
      forallb (league_well_formed cfg net) (pre ++ post) = true ->
      exists m',
        forLeagues parseFloat cfg net (pre ++ (leagueName, leagueId) :: post) m
        = Return m').
Proof.
  intros H1 H2.
  assert (Hs : getTopScorers cfg net leagueId = Return (VArr []))
    by (unfold getTopScorers; rewrite H1; reflexivity).
  assert (Ha : getTopAssists cfg net leagueId = Return (VArr []))
    by (unfold getTopAssists; rewrite H2; reflexivity).
  assert (Hl : forall m,
             processLeague parseFloat cfg net m (leagueName, leagueId)
             = Return m)
    by (intro m; unfold processLeague; rewrite Hs, Ha; reflexivity).
  assert (Hskip : forall pre post m,
             forLeagues parseFloat cfg net
               (pre ++ (leagueName, leagueId) :: post) m
             = forLeagues parseFloat cfg net (pre ++ post) m).
  { intros pre post m. rewrite !forLeagues_app.
    destruct (forLeagues parseFloat cfg net pre m); cbn [bind];
      try reflexivity.
    cbn [forLeagues]. rewrite Hl. reflexivity. }
  split; [ exact Hs | ]. split; [ exact Ha | ]. split; [ exact Hl | ].
  split; [ exact Hskip | ]. split.
  - intros pre post m m' H k. rewrite Hskip in H.
    exact (forLeagues_has parseFloat cfg net (pre ++ post) m m' H k).
  - intros pre post m Hwf. rewrite Hskip.
    apply forLeagues_well_formed, Hwf.
Qed.

End FailedFetch.

Lemma derive_numeric (player : PlayerRecord) :
  numeric player = true -> exists r, derive player = Return r.
Proof.
  unfold numeric, derive.
  destruct (goals player); try discriminate.
  destruct (assists player); try discriminate.
  destruct (appearances player); try discriminate.
  intros ->. eauto.
Qed.

(** A mapping whose statistics are numbers is ranked. *)
Lemma rankPlayers_numeric (cfg : config) (allPlayers : PlayerMap) :
  forallb numeric (map_values allPlayers) = true ->
  exists topPlayers, rankPlayers cfg allPlayers = Return topPlayers.
Proof.
  unfold rankPlayers. intro H.
  assert (Hall : exists playersArray,
             map_result derive (map_values allPlayers) = Return playersArray).
  { induction (map_values allPlayers) as [| player l IH]; simpl.
    - eauto.
    - simpl in H. apply andb_true_iff in H as [Hp Hl].
      destruct (derive_numeric player Hp) as [r ->]. simpl.
      destruct (IH Hl) as [rs ->]. simpl. eauto. }
  destruct Hall as [playersArray ->]. simpl. eauto.
Qed.

(** *** The keys of the global mapping are distinct *)

Lemma distinct_keys_of_keys (m1 m2 : PlayerMap) :
  map_keys m1 = map_keys m2 -> distinct_keys m1 = distinct_keys m2.
Proof.
  revert m2; induction m1 as [| [k1 p1] m1 IH]; intros [| [k2 p2] m2] H;
    simpl in *; try discriminate; try reflexivity.
  injection H as -> H. rewrite (IH m2 H), (map_has_keys m1 m2 H k2).
  reflexivity.
Qed.

Lemma distinct_keys_snoc (m : PlayerMap) (k : value) (p : PlayerRecord) :
  map_has m k = false -> distinct_keys m = true ->
  distinct_keys (m ++ [(k, p)]) = true.
Proof.
  induction m as [| [k' p'] m IH]; simpl; intros Hk Hm.
  - reflexivity.
  - apply orb_false_iff in Hk as [Hk1 Hk2].
    apply andb_true_iff in Hm as [Hm1 Hm2].
    rewrite map_has_app. simpl.
    rewrite (same_value_zero_sym k k'), Hk1, !orb_false_r, Hm1. simpl.
    apply IH; assumption.
Qed.

Section DistinctKeys.

Variable parseFloat : value -> value.

Lemma mergeFeeds_distinct_keys (leagueName : string)
    (scorers assists_feed : value) (m m' : PlayerMap) :
  distinct_keys m = true ->
  mergeFeeds parseFloat leagueName scorers assists_feed m = Return m' ->
  distinct_keys m' = true.
Proof.
  unfold mergeFeeds. intros Hm H. bind_inv H.
  apply forEach_Return in Ha as [_ Ha]. apply forEach_Return in H as [_ H].
  rewrite (distinct_keys_of_keys _ _ (assists_keys _ _ _ H)).
  apply (forEach_items_invariant (fun s => distinct_keys s = true)
           (processScorer parseFloat leagueName) (feed_items scorers))
    with (s := m); auto.
  intros s item s' Hs Hstep.
  apply processScorer_inv in Hstep
    as [pid [_ [[_ ->] | [Hhas [r [sa [-> _]]]]]]].
  - exact Hs.
  - apply distinct_keys_snoc; assumption.
Qed.

(** The global mapping holds one record per player identifier. *)
Lemma forLeagues_distinct_keys (cfg : config) (net : network)
    (entries : list (string * Z)) :
  forall m m',
    distinct_keys m = true ->
    forLeagues parseFloat cfg net entries m = Return m' ->
    distinct_keys m' = true.
Proof.
  induction entries as [| [leagueName leagueId] entries IH];
    intros m m' Hm H; simpl in H.
  - congruence.
  - bind_inv H.
    apply processLeague_inv in Ha as [scorers [assists_feed [_ [_ Hmerge]]]].
    eapply IH; [ | exact H ].
    eapply mergeFeeds_distinct_keys; eauto.
Qed.

End DistinctKeys.

(** *** The statements at the example feeds *)

Lemma merge_is_scorer_anchored_witness :
  mergeFeeds parse_rating "PREMIER_LEAGUE"
    (VArr scorers_39) (VArr assists_39) [] = Return merged_39 /\
  map_has merged_39 (VNum 1) = true /\
  map_has merged_39 (VNum 3) = false.
Proof.
  assert (H : mergeFeeds parse_rating "PREMIER_LEAGUE"
                (VArr scorers_39) (VArr assists_39) [] = Return merged_39)
    by reflexivity.
  split; [ exact H | ].
  destruct (merge_is_scorer_anchored parse_rating _ _ _ _ _ H)
    as [_ [Hexact Hdropped]].
  split.
  - rewrite (Hexact eq_refl). reflexivity.
  - apply Hdropped; reflexivity.
Defined.

Lemma assists_of_player_in_both_feeds_witness :
  (exists r, map_get merged_39 (VNum 1) = Some r /\ assists r = VNum 5) /\
  (exists r0,
      map_get after_39 (VNum 1) = Some r0 /\
      map_get after_39_140_zero (VNum 1) = Some r0).
Proof.
  split.
  - destruct (assists_of_player_in_both_feeds parse_rating "PREMIER_LEAGUE"
                [] [feed_entry 2 "B. Forward" "Blues" (VNum 8) (VNum 1)
                      (VNum 18)]
                [] [feed_entry 3 "C. Winger" "Whites" (VNum 1) (VNum 9)
                      (VNum 19)]
                (feed_entry 1 "A. Striker" "Reds" (VNum 10) (VNum 2) (VNum 20))
                (feed_entry 1 "A. Striker" "Reds" (VNum 10) (VNum 5) (VNum 20))
                (VNum 1) [] merged_39
                eq_refl eq_refl eq_refl eq_refl eq_refl eq_refl eq_refl)
      as [r [aa [Hget [Haa [sa [Hsa Hr]]]]]].
    exists r. split; [ exact Hget | ].
    vm_compute in Haa. injection Haa as <-. exact Hr.
  - destruct (assists_of_player_in_both_feeds parse_rating "LA_LIGA"
                [] [feed_entry 4 "D. Nine" "Rojos" (VNum 7) VNull (VNum 3)]
                [] []
                (feed_entry 1 "A. Striker" "Blancos" (VNum 3) (VNum 1) (VNum 5))
                (feed_entry 1 "A. Striker" "Blancos" (VNum 3) (VNum 0) (VNum 5))
                (VNum 1) after_39 after_39_140_zero
                eq_refl eq_refl eq_refl eq_refl eq_refl eq_refl eq_refl)
      as [r [aa [Hget [Haa Hr]]]].
    eexists. split; [ reflexivity | ].
    vm_compute in Haa. injection Haa as <-.
    rewrite Hget. f_equal. exact Hr.
Defined.

Lemma entry_without_statistics_witness :
  forEach_items (processScorer parse_rating "PREMIER_LEAGUE")
    (bare_entry 9 "E. Bare" :: scorers_39) [] = Throw TypeError /\
  forEach_items processAssist (bare_entry 9 "E. Bare" :: assists_39) merged_39
  = forEach_items processAssist assists_39 merged_39 /\
  forEach_items (processScorer parse_rating "PREMIER_LEAGUE")
    (bare_entry 1 "A. Striker" :: scorers_39) merged_39
  = forEach_items (processScorer parse_rating "PREMIER_LEAGUE")
      scorers_39 merged_39.
Proof.
  split; [ | split ].
  - apply (proj1 (entry_without_statistics parse_rating "PREMIER_LEAGUE"
                    [] scorers_39 (bare_entry 9 "E. Bare") (VNum 9) [] []
                    eq_refl eq_refl)).
    reflexivity.
  - apply (proj2 (entry_without_statistics parse_rating "PREMIER_LEAGUE"
                    [] assists_39 (bare_entry 9 "E. Bare") (VNum 9)
                    merged_39 merged_39 eq_refl eq_refl)).
    reflexivity.
  - apply (proj1 (entry_without_statistics parse_rating "PREMIER_LEAGUE"
                    [] scorers_39 (bare_entry 1 "A. Striker") (VNum 1)
                    merged_39 merged_39 eq_refl eq_refl)).
    reflexivity.
Defined.

Lemma later_competitions_change_assists_only_witness :
  (exists r,
      map_get after_39 (VNum 1) = Some r /\
      assists r = VNum 5 /\
      map_get after_39_140 (VNum 1) = Some (set_assists r (VNum 7))) /\
  map_get after_39_140 (VNum 2) = map_get after_39 (VNum 2).
Proof.
  split.
  - eexists. split; [ reflexivity | ]. split; [ reflexivity | ].
    refine (proj2 (proj2
              (later_competitions_change_assists_only parse_rating CONFIG
                 example_network [("PREMIER_LEAGUE", 39)] [("LA_LIGA", 140)]
                 after_39 after_39_140 (VNum 1) _ eq_refl eq_refl eq_refl))
              [] [] "LA_LIGA" 140 [] []
              (feed_entry 1 "A. Striker" "Blancos" (VNum 3) (VNum 7) (VNum 5))
              (VNum 1) (VNum 7)
              eq_refl eq_refl eq_refl eq_refl eq_refl eq_refl eq_refl _).
    intros entry feed [].
  - destruct (later_competitions_change_assists_only parse_rating CONFIG
                example_network [("PREMIER_LEAGUE", 39)] [("LA_LIGA", 140)]
                after_39 after_39_140 (VNum 2) _ eq_refl eq_refl eq_refl)
      as [_ [Hsame _]].
    apply Hsame. intros entry feed [<- | []] Hfeed.
    vm_compute in Hfeed. injection Hfeed as <-. reflexivity.
Defined.

Lemma ranking_sorted_stable_bounded_witness :
  map (fun entry => (fst entry, combinedScore (snd entry))) tied_players
  = [(VNum 5, Some 3); (VNum 6, Some 6); (VNum 7, Some 6); (VNum 8, Some 3);
     (VNum 9, Some 9)] /\
  map (fun r => (id (base r), goalsAndAssists r)) leaderboard_tied
  = [(VNum 9, 9); (VNum 6, 6); (VNum 7, 6); (VNum 5, 3)] /\
  descending_by_score leaderboard_tied /\
  (forall r, In r leaderboard_tied ->
             combinedScore (base r) = Some (goalsAndAssists r)) /\
  List.length leaderboard_tied = 4%nat /\
  exists playersArray rest,
    map base playersArray = map_values tied_players /\
    scoring 3 playersArray = scoring 3 leaderboard_tied ++ rest.
Proof.
  destruct (ranking_sorted_stable_bounded top_four_config tied_players
              leaderboard_tied eq_refl)
    as [playersArray [Hderived [_ [Hscores [_ [Hsorted
         [Hstable [_ [Hlength _]]]]]]]]].
  split; [ reflexivity | ]. split; [ reflexivity | ].
  split; [ exact Hsorted | ]. split; [ exact Hscores | ].
  split; [ exact Hlength | ].
  destruct (Hstable 3) as [rest Hrest].
  exists playersArray, rest. split; [ | exact Hrest ].
  vm_compute in Hderived. injection Hderived as <-. reflexivity.
Defined.

Lemma derived_fields_witness :
  goalsAndAssists third_ranked = 7 /\
  goalsPerGame third_ranked = VStr "2.33".
Proof.
  destruct (derived_fields CONFIG after_39_140 leaderboard_39_140 third_ranked
              eq_refl (or_intror (or_intror (or_introl eq_refl))))
    as [g [a [n [_ [Hg [Ha [Hn [Hsum [_ [Hrate _]]]]]]]]]].
  injection Hg as <-. injection Ha as <-. injection Hn as <-.
  split; [ exact Hsum | ].
  apply Hrate. reflexivity.
Defined.


Lemma failed_fetch_contributes_nothing_witness :
  getTopScorers CONFIG premier_league_down 39 = Return (VArr []) /\
  exists m,
    forLeagues parse_rating CONFIG premier_league_down (LEAGUES CONFIG) []
    = Return m /\
    map_has m (VNum 1) = true /\ map_has m (VNum 4) = true /\
    map_has m (VNum 2) = false.
Proof.
  destruct (failed_fetch_contributes_nothing parse_rating CONFIG
              premier_league_down "PREMIER_LEAGUE" 39
              NetworkError NetworkError eq_refl eq_refl)
    as [Hscorers [_ [_ [_ [Hhas Hcompletes]]]]].
  split; [ exact Hscorers | ].
  destruct (Hcompletes [] [("LA_LIGA", 140)] [] eq_refl) as [m Hm].
  exists m. split; [ exact Hm | ].
  rewrite !(Hhas [] [("LA_LIGA", 140)] [] m Hm).
  repeat split; reflexivity.
Defined.

Lemma cache_age_checked_at_construction_witness :
  constructor CONFIG 1000 storage_saved_at_0 = Some snapshot_saved_at_0 /\
  getAllPlayers parse_rating CONFIG
    (constructor CONFIG 1000 storage_saved_at_0)
    (1000 + 7 * 24 * 60 * 60 * 1000) example_network storage_saved_at_0
  = {| outcome := Return (players snapshot_saved_at_0);
       storage := storage_saved_at_0;
       requests := [] |}.
Proof.
  split; [ reflexivity | ].
  apply (proj1 (cache_age_checked_at_construction parse_rating CONFIG 1000
                  storage_saved_at_0 snapshot_saved_at_0 eq_refl eq_refl)).
Defined.

(** *** Where the code departs from the specification *)

(** C2 fails on the code: player 1 is in the feeds of both competitions;
    the assists of the record are 5 after the first competition alone and
    7, from the assist feed of the second, after both. *)
Lemma later_assist_feed_overwrites_assists :
  forLeagues parse_rating CONFIG example_network [("PREMIER_LEAGUE", 39)] []
  = Return after_39 /\
  forLeagues parse_rating CONFIG example_network
    [("PREMIER_LEAGUE", 39); ("LA_LIGA", 140)] [] = Return after_39_140 /\
  option_map assists (map_get after_39 (VNum 1)) = Some (VNum 5) /\
  option_map assists (map_get after_39_140 (VNum 1)) = Some (VNum 7) /\
  map_get after_39_140 (VNum 1) <> map_get after_39 (VNum 1).
Proof.
  repeat split; try reflexivity. discriminate.
Qed.


(** C7 fails on the code: player 1 is in both feeds of the second
    competition, with 1 assist in the scorer feed and the count 0 in the
    assist feed; the merged record has neither: it keeps the 5 assists
    that the first competition gave it. *)
Lemma earlier_assists_outlive_a_zero_count :
  mergeFeeds parse_rating "LA_LIGA"
    (VArr scorers_140) (VArr assists_140_zero) after_39
  = Return after_39_140_zero /\
  forLeagues parse_rating CONFIG zero_count_network (LEAGUES CONFIG) []
  = Return after_39_140_zero /\
  feed_has scorers_140 (VNum 1) = true /\
  feed_has assists_140_zero (VNum 1) = true /\
  map assistsOf (filter (fun item => feed_has [item] (VNum 1)) scorers_140)
  = [Return (VNum 1)] /\
  map assistsOf (filter (fun item => feed_has [item] (VNum 1))
                   assists_140_zero)
  = [Return (VNum 0)] /\
  option_map assists (map_get after_39_140_zero (VNum 1)) = Some (VNum 5).
Proof.
  repeat split; reflexivity.
Qed.

(** C3 fails on the code: with one entry whose statistics block is empty
    in the scorer feed, the merge throws, [getAllPlayers] throws and
    [initialize] shows the error message; the entries after it are lost. *)
Lemma malformed_entry_aborts_the_merge :
  mergeFeeds parse_rating "PREMIER_LEAGUE"
    (VArr (bare_entry 9 "E. Bare" :: scorers_39)) (VArr assists_39) []
  = Throw TypeError /\
  mergeFeeds parse_rating "PREMIER_LEAGUE"
    (VArr scorers_39) (VArr assists_39) [] = Return merged_39 /\
  outcome (getAllPlayers parse_rating CONFIG None 0 malformed_network
             empty_storage) = Throw TypeError /\
  (exists s,
      initialize parse_rating
        {| API_KEY := "a-real-key"; LEAGUES := LEAGUES CONFIG;
           SEASON := SEASON CONFIG; CACHE_DURATION := CACHE_DURATION CONFIG;
           TOP_PLAYERS_COUNT := TOP_PLAYERS_COUNT CONFIG |}
        None 0 malformed_network empty_storage full_page = Return s /\
      view s = set_grid full_page ErrorMessage).
Proof.
  repeat split; try reflexivity.
  eexists. split; [ vm_compute; reflexivity | reflexivity ].
Qed.

(** ** Further properties of the aggregation *)

Lemma map_get_In (m : PlayerMap) (k : value) (r : PlayerRecord) :
  map_get m k = Some r -> exists k', In (k', r) m /\ k' = k.
Proof.
  induction m as [| [k0 p0] m IH]; simpl; intro H.
  - discriminate.
  - destruct (same_value_zero k0 k) eqn:E.
    + injection H as ->. apply same_value_zero_eq in E.
      exists k0. split; [ left; reflexivity | exact E ].
    + destruct (IH H) as [k' [Hin Hk]]. exists k'. split; [ right | ]; auto.
Qed.

Lemma map_modify_Forall (P : value * PlayerRecord -> Prop) (m : PlayerMap)
    (k : value) (f : PlayerRecord -> PlayerRecord) :
  (forall k' p, P (k', p) -> P (k', f p)) ->
  Forall P m -> Forall P (map_modify m k f).
Proof.
  intro Hf. induction m as [| [k' p] m IH]; simpl; intro H.
  - constructor.
  - inversion H as [| e l Hhead Htail]; subst.
    destruct (same_value_zero k' k); constructor; auto.
Qed.

Section GlobalMapping.

Variable parseFloat : value -> value.

(** What the scorer loop's body does to the map: nothing, or one record
    more, at the end, made from the entry. *)
Lemma processScorer_record (leagueName : string) (m m' : PlayerMap)
    (item : value) :
  processScorer parseFloat leagueName m item = Return m' ->
  m' = m \/
  exists pid r,
    m' = m ++ [(pid, r)] /\ playerIdOf item = Return pid /\
    map_has m pid = false /\ id r = pid /\
    league r = replace_underscore leagueName /\
    defaulted (goals r) = true /\ defaulted (assists r) = true /\
    defaulted (appearances r) = true.
Proof.
  unfold processScorer. intro H. bind_invs H. same_reads.
  destruct (map_has m a0) eqn:Hhas; simpl in H.
  - left. congruence.
  - right. bind_invs H. same_reads. injection H as <-.
    eexists. eexists. split; [ apply map_set_new; exact Hhas | ].
    split; [ unfold playerIdOf; replay_reads; reflexivity | ].
    split; [ exact Hhas | ]. split; [ reflexivity | ].
    split; [ reflexivity | ].
    unfold defaulted, js_or. simpl.
    repeat split;
      match goal with
      | |- context [truthy ?v] => destruct (truthy v) eqn:E; rewrite ?E; reflexivity
      end.
Qed.

(** A property of the entries that the assist loop's assignment keeps,
    and that every record built by the scorer loop has, holds throughout
    the global mapping. *)
Lemma forLeagues_all_entries (P : value -> PlayerRecord -> Prop)
    (cfg : config) (net : network) (entries : list (string * Z)) :
  (forall k p a, P k p -> truthy a = true -> P k (set_assists p a)) ->
  (forall leagueName pid r,
      In leagueName (map fst entries) ->
      id r = pid -> league r = replace_underscore leagueName ->
      defaulted (goals r) = true -> defaulted (assists r) = true ->
      defaulted (appearances r) = true -> P pid r) ->
  forall m m',
    all_entries P m ->
    forLeagues parseFloat cfg net entries m = Return m' ->
    all_entries P m'.
Proof.
  intros Hassist Hnew.
  induction entries as [| [leagueName leagueId] entries IH];
    intros m m' Hm H; simpl in H.
  - injection H as <-. exact Hm.
  - bind_inv H. rename a into m1.
    apply processLeague_inv in Ha as [scorers [assists_feed [_ [_ Hmerge]]]].
    apply (IH (fun ln pid r Hin => Hnew ln pid r (or_intror Hin)) m1 m');
      [ | exact H ].
    unfold mergeFeeds in Hmerge. bind_inv Hmerge. rename a into ms.
    apply forEach_Return in Ha as [_ Ha].
    apply forEach_Return in Hmerge as [_ Hmerge].
    assert (Hms : all_entries P ms).
    { apply (forEach_items_invariant (all_entries P)
               (processScorer parseFloat leagueName) (feed_items scorers))
        with (s := m); auto.
      intros s item s' Hs Hstep.
      apply processScorer_record in Hstep
        as [-> | [pid [r [-> [_ [Hhas [Hid [Hl [Hg [Has Hap]]]]]]]]]].
      - exact Hs.
      - unfold all_entries. apply Forall_app. split; [ exact Hs | ].
        constructor; [ | constructor ]. simpl.
        apply (Hnew leagueName pid r); auto. left. reflexivity. }
    apply (forEach_items_invariant (all_entries P) processAssist
             (feed_items assists_feed)) with (s := ms); auto.
    intros s item s' Hs Hstep.
    apply processAssist_inv in Hstep
      as [pid [_ [[_ ->] | [_ [aa [_ ->]]]]]]; [ exact Hs | ].
    unfold all_entries. apply map_modify_Forall; [ | exact Hs ].
    intros k' p Hp. simpl in *. unfold js_or.
    destruct (truthy aa) eqn:E.
    + apply Hassist; auto.
    + rewrite set_assists_same. exact Hp.
Qed.

Lemma defaulted_truthy (a : value) : truthy a = true -> defaulted a = true.
Proof. unfold defaulted. intros ->. reflexivity. Qed.

(** X1. The global mapping holds one record per player identifier, stored
    under that identifier: no two keys are the same, and the record found
    under a key carries the key as its [id]. *)
Theorem one_record_per_identifier (cfg : config) (net : network)
    (entries : list (string * Z)) (m : PlayerMap) :
  forLeagues parseFloat cfg net entries [] = Return m ->
  distinct_keys m = true /\
  forall k r, map_get m k = Some r -> id r = k.
Proof.
  intro H. split.
  - eapply forLeagues_distinct_keys; [ | exact H ]. reflexivity.
  - intros k r Hget.
    apply map_get_In in Hget as [k' [Hin <-]].
    assert (Hall : all_entries (fun key p => id p = key) m).
    { apply (forLeagues_all_entries (fun key p => id p = key) cfg net entries)
        with (m := []); auto.
      constructor. }
    unfold all_entries in Hall. rewrite Forall_forall in Hall.
    exact (Hall _ Hin).
Qed.

(** X2. The players of the global mapping are the players of the scorer
    feeds of the configured leagues, and no others. *)
Theorem global_mapping_lists_scorers (cfg : config) (net : network)
    (entries : list (string * Z)) (m : PlayerMap) (k : value) :
  forLeagues parseFloat cfg net entries [] = Return m ->
  map_has m k = existsb (league_lists cfg net k) entries.
Proof.
  intro H. rewrite (forLeagues_has _ _ _ _ _ _ H k). reflexivity.
Qed.

(** X3. Every record of the global mapping has its statistics defaulted:
    goals, assists and appearances are a truthy value or the number 0,
    never [null], [undefined] or an empty text; and its league label is
    the name of a configured league with its first underscore replaced. *)
Theorem records_are_defaulted_and_labelled (cfg : config) (net : network)
    (entries : list (string * Z)) (m : PlayerMap) (k : value)
    (r : PlayerRecord) :
  forLeagues parseFloat cfg net entries [] = Return m ->
  map_get m k = Some r ->
  defaulted (goals r) = true /\ defaulted (assists r) = true /\
  defaulted (appearances r) = true /\
  In (league r) (map (fun entry => replace_underscore (fst entry)) entries).
Proof.
  intros H Hget.
  apply map_get_In in Hget as [k' [Hin _]].
  set (P := fun (_ : value) (p : PlayerRecord) =>
              defaulted (goals p) = true /\ defaulted (assists p) = true /\
              defaulted (appearances p) = true /\
              In (league p)
                 (map (fun entry => replace_underscore (fst entry)) entries)).
  assert (Hall : all_entries P m).
  { apply (forLeagues_all_entries P cfg net entries) with (m := []); auto.
    - intros key p a [Hg [_ [Hap Hl]]] Ha. unfold P. simpl.
      repeat split; auto. apply defaulted_truthy, Ha.
    - intros leagueName pid p Hln _ Hl Hg Ha Hap. unfold P.
      repeat split; auto. rewrite Hl.
      rewrite in_map_iff in Hln. destruct Hln as [entry [<- Hentry]].
      apply in_map_iff. exists entry. auto.
    - constructor. }
  unfold all_entries in Hall. rewrite Forall_forall in Hall.
  exact (Hall _ Hin).
Qed.

(** The scorer loop gives a player who is new to the map and in the feed a
    record labelled with the league of the loop. *)
Lemma scorers_insert (leagueName : string) (items : list value) (x : value) :
  forall m m',
    forEach_items (processScorer parseFloat leagueName) items m = Return m' ->
    map_has m x = false ->
    feed_has items x = true ->
    exists r, map_get m' x = Some r /\
              league r = replace_underscore leagueName.
Proof.
  induction items as [| item items IH]; intros m m' H Hm Hfeed; simpl in *.
  - discriminate.
  - bind_inv H. rename a into m1.
    pose proof Ha as Hrec. apply processScorer_record in Hrec.
    apply processScorer_inv in Ha as [pid [Hpid Hcase]].
    rewrite Hpid in Hfeed.
    destruct (same_value_zero pid x) eqn:E.
    + pose proof (same_value_zero_eq _ _ E) as Heq. subst pid.
      destruct Hcase as [[Hhas _] | [_ [r [sa [-> _]]]]]; [ congruence | ].
      destruct Hrec as [Hsame | [pid' [r' [Hm1 [_ [_ [_ [Hl _]]]]]]]].
      * exfalso. apply (f_equal (@List.length _)) in Hsame.
        rewrite length_app in Hsame. simpl in Hsame. lia.
      * apply app_inj_tail in Hm1 as [_ Hpair]. injection Hpair as <- <-.
        exists r. split; [ | exact Hl ].
        eapply scorers_get_old; [ | exact H ].
        rewrite map_get_app_r by exact Hm. simpl. rewrite E. reflexivity.
    + simpl in Hfeed. apply (IH m1 m' H); [ | exact Hfeed ].
      destruct Hcase as [[_ ->] | [_ [r [sa [-> _]]]]]; [ exact Hm | ].
      rewrite map_has_app, Hm. simpl. rewrite E. reflexivity.
Qed.

(** X4. A player is listed under the first configured league whose scorer
    feed has an entry for the player, whatever the later leagues deliver. *)
Theorem league_of_first_listing (cfg : config) (net : network)
    (pre rest : list (string * Z)) (leagueName : string) (leagueId : Z)
    (m : PlayerMap) (x : value) :
  forLeagues parseFloat cfg net (pre ++ (leagueName, leagueId) :: rest) []
  = Return m ->
  existsb (league_lists cfg net x) pre = false ->
  league_lists cfg net x (leagueName, leagueId) = true ->
  exists r, map_get m x = Some r /\
            league r = replace_underscore leagueName.
Proof.
  intros H Hpre Hhere. rewrite forLeagues_app in H. bind_inv H.
  rename a into m1. simpl in H. bind_inv H. rename a into m2.
  assert (Hm1 : map_has m1 x = false).
  { rewrite (forLeagues_has _ _ _ _ _ _ Ha x), Hpre.
    reflexivity. }
  apply processLeague_inv in Ha0 as [scorers [assists_feed [Hs [_ Hmerge]]]].
  unfold league_lists in Hhere. simpl in Hhere. rewrite Hs in Hhere.
  unfold mergeFeeds in Hmerge. bind_inv Hmerge. rename a into ms.
  apply forEach_Return in Ha0 as [_ Hsc].
  apply forEach_Return in Hmerge as [_ Has].
  destruct (scorers_insert _ _ _ _ _ Hsc Hm1 Hhere) as [r [Hget Hl]].
  destruct (assists_get_frame _ _ _ _ _ Hget Has) as [a1 Hget2].
  destruct (forLeagues_frame _ _ _ _ _ _ _ _ Hget2 H) as [a2 Hget3].
  eexists. split; [ exact Hget3 | exact Hl ].
Qed.

End GlobalMapping.

(** *** The leaderboard and the players it leaves out *)



(** *** The requests of an aggregation *)

Section Requests.

Variable parseFloat : value -> value.



End Requests.

(** ** The page *)

Lemma createPlayerCard_cases (player : value) :
  createPlayerCard player
  = if defined player then Return player else Throw TypeError.
Proof.
  unfold createPlayerCard.
  destruct player; reflexivity.
Qed.

Lemma cards_of_items (items : list value) :
  forall acc,
    forEach_state_items
      (fun cards player =>
         card <- createPlayerCard player ;; Return (cards ++ [card]))
      items acc
    = (acc ++ defined_prefix items,
       if forallb defined items then Return tt else Throw TypeError).
Proof.
  induction items as [| item items IH]; intro acc; simpl.
  - rewrite app_nil_r. reflexivity.
  - rewrite createPlayerCard_cases. destruct (defined item); simpl.
    + rewrite IH, <- app_assoc. reflexivity.
    + rewrite app_nil_r. reflexivity.
Qed.

Lemma defined_prefix_all (items : list value) :
  forallb defined items = true -> defined_prefix items = items.
Proof.
  induction items as [| item items IH]; simpl; [ reflexivity | ].
  destruct (defined item); simpl; [ | discriminate ].
  intro H. rewrite (IH H). reflexivity.
Qed.



(** [updateWebsite] on a page with a grid: the grid is cleared and takes
    one card per element up to the first that cannot be rendered; the
    time stamp is written only after the last card. *)
Lemma updateWebsite_with_grid (v : value) (pg : page) (g : grid) :
  player_grid pg = Some g ->
  updateWebsite v pg
  = if renderable v
    then updateTimestamp (set_grid pg (Cards (feed_items v)))
    else (set_grid pg (Cards (renderable_prefix v)), Throw TypeError).
Proof.
  intro Hg. unfold updateWebsite. rewrite Hg.
  destruct v; try reflexivity.
  unfold forEach_state. rewrite cards_of_items. cbn [app renderable].
  destruct (forallb defined items) eqn:E.
  - rewrite (defined_prefix_all _ E). reflexivity.
  - reflexivity.
Qed.


(** The cards that are in the grid when [updateWebsite] throws: those
    before the [null] element; and all of them on a page where the time
    stamp cannot be placed, which [initialize] then replaces by the error
    message, the leaderboard being saved all the same. *)
Example cards_stay_when_updateWebsite_throws :
  updateWebsite (VArr [VStr "a"; VNull; VStr "c"]) full_page
  = (set_grid full_page (Cards [VStr "a"]), Throw TypeError) /\
  updateWebsite (VArr [VStr "a"; VStr "c"]) page_without_container
  = (set_grid page_without_container (Cards [VStr "a"; VStr "c"]),
     Throw TypeError) /\
  updateWebsite (VArr [VStr "a"; VStr "c"]) full_page
  = (set_stamp (set_grid full_page (Cards [VStr "a"; VStr "c"])) Stamped,
     Return tt) /\
  initialize parse_rating keyed_config None 1000 example_network
    empty_storage page_without_container
  = Return {| view := set_grid page_without_container ErrorMessage;
              store := saveCache 1000 (VArr (map encode leaderboard_39_140))
                         empty_storage;
              sent := requests_sent parse_rating keyed_config example_network
                        (LEAGUES keyed_config) [] |}.
Proof.
  repeat split; reflexivity.
Qed.

Section PageProperties.

Variable parseFloat : value -> value.



(** The [try] statement of [initialize] catches everything. *)
Lemma initialize_never_throws (cfg : config) (cache : option snapshot)
    (now : Z) (net : network) (ls : localStorage) (pg : page) (e : exn) :
  initialize parseFloat cfg cache now net ls pg <> Throw e.
Proof.
  unfold initialize.
  destruct (String.eqb (API_KEY cfg) _); [ discriminate | ].
  destruct (outcome _); try discriminate.
  destruct (updateWebsite _ pg) as [pg' [[] | e' |]]; discriminate.
Qed.



Lemma forLeagues_all_down (cfg : config) (net : network)
    (entries : list (string * Z)) :
  (forall entry, In entry entries ->
     exists e1 e2,
       fetchFromAPI cfg net "players/topscorers" (snd entry) = Throw e1 /\
       fetchFromAPI cfg net "players/topassists" (snd entry) = Throw e2) ->
  forall m, forLeagues parseFloat cfg net entries m = Return m.
Proof.
  induction entries as [| [leagueName leagueId] entries IH]; intros Hdown m.
  - reflexivity.
  - destruct (Hdown (leagueName, leagueId) (or_introl eq_refl))
      as [e1 [e2 [H1 H2]]]. simpl in H1, H2.
    cbn [forLeagues]. unfold processLeague, getTopScorers, getTopAssists.
    rewrite H1, H2. simpl. apply IH.
    intros entry Hin. apply Hdown. right. exact Hin.
Qed.

(** X10. An outage is cached.  When every fetch of an aggregation fails,
    [getAllPlayers] returns the empty leaderboard and saves it; for the
    next [CACHE_DURATION] a new manager returns the empty leaderboard from
    the cache and sends no request, whatever the network would answer. *)
Theorem outage_is_cached (cfg : config) (now t later : Z)
    (net net' : network) (ls ls' : localStorage) :
  (forall entry, In entry (LEAGUES cfg) ->
     exists e1 e2,
       fetchFromAPI cfg net "players/topscorers" (snd entry) = Throw e1 /\
       fetchFromAPI cfg net "players/topassists" (snd entry) = Throw e2) ->
  accessible ls = true -> quota_left ls = true ->
  t - now < CACHE_DURATION cfg ->
  let first := getAllPlayers parseFloat cfg None now net ls in
  outcome first = Return (VArr []) /\
  getAllPlayers parseFloat cfg (constructor cfg t (storage first))
    later net' ls'
  = {| outcome := Return (VArr []); storage := ls'; requests := [] |}.
Proof.
  intros Hdown Hacc Hquota Hage first.
  assert (Hfirst : first
                   = {| outcome := Return (VArr []);
                        storage := saveCache now (VArr []) ls;
                        requests := requests_sent parseFloat cfg net
                                      (LEAGUES cfg) [] |}).
  { unfold first, getAllPlayers, fetchAllPlayers.
    rewrite (forLeagues_all_down cfg net (LEAGUES cfg) Hdown []).
    cbn [bind]. unfold rankPlayers. simpl.
    destruct (TOP_PLAYERS_COUNT cfg); reflexivity. }
  rewrite Hfirst. cbn [outcome storage]. split; [ reflexivity | ].
  unfold constructor, saveCache, setItem. rewrite Hacc, Hquota.
  unfold loadCache, loadCache_try, getItem, fresh. simpl.
  replace (t - now <? CACHE_DURATION cfg) with true
    by (symmetry; apply Z.ltb_lt; exact Hage).
  reflexivity.
Qed.

(** X11. A fresh snapshot whose [players] is truthy but cannot be rendered
    (not an array, or an array with a [null] element) is not taken for a
    cache miss: the page load sends no request, leaves the storage alone
    and shows the error message in the grid, the rest of the page staying
    as it was. *)
Theorem unrenderable_snapshot_shows_the_error (cfg : config) (now later : Z)
    (net : network) (ls : localStorage) (pg : page) (g : grid)
    (data : snapshot) :
  String.eqb (API_KEY cfg) "57f67398e65a9dd967d70fe6ecfd76df" = false ->
  loadCache cfg now ls = Some data ->
  truthy (players data) = true ->
  renderable (players data) = false ->
  player_grid pg = Some g ->
  pageLoad parseFloat cfg now later net ls pg
  = Return {| view := set_grid pg ErrorMessage; store := ls; sent := [] |}.
Proof.
  intros Hkey Hload Htruthy Hbad Hg.
  unfold pageLoad, constructor, initialize. rewrite Hkey, Hload.
  unfold getAllPlayers. rewrite Htruthy. cbn [outcome bind].
  rewrite (updateWebsite_with_grid _ pg g Hg), Hbad. reflexivity.
Qed.

(** X12. The snapshot that was stored before a click on the refresh
    button never survives the click: when the listener gets as far as
    [initialize], the storage afterwards holds no snapshot, or one stamped
    with the time of the click's save. *)
Theorem refresh_discards_the_old_snapshot (cfg : config)
    (cache : option snapshot) (now : Z) (net : network) (ls : localStorage)
    (pg : page) (s : session) :
  refresh parseFloat cfg cache now net ls pg = Return s ->
  ynwa_stats_cache (store s) = Missing \/
  exists v, ynwa_stats_cache (store s)
            = Parsed {| timestamp := Some now; players := json_roundtrip v |}.
Proof.
  unfold refresh, invalidate, removeItem. intro H.
  destruct (accessible ls) eqn:Hacc; [ | discriminate ].
  simpl in H. unfold initialize in H.
  destruct (String.eqb (API_KEY cfg) _).
  - injection H as <-. left. reflexivity.
  - unfold getAllPlayers, fetchAllPlayers in H.
    destruct (bind (forLeagues _ _ _ _ _) _) as [topPlayers | e |];
      cbn [outcome storage requests bind] in H.
    + assert (Hstore :
        ynwa_stats_cache
          (saveCache now (VArr (map encode topPlayers))
             {| accessible := true; quota_left := quota_left ls;
                ynwa_stats_cache := Missing |}) = Missing \/
        exists v,
          ynwa_stats_cache
            (saveCache now (VArr (map encode topPlayers))
               {| accessible := true; quota_left := quota_left ls;
                  ynwa_stats_cache := Missing |})
          = Parsed {| timestamp := Some now; players := json_roundtrip v |}).
      { unfold saveCache, setItem. cbn [accessible quota_left].
        destruct (quota_left ls); [ right | left; reflexivity ].
        exists (VArr (map encode topPlayers)). reflexivity. }
      destruct (updateWebsite _ pg) as [pg' [[] | e' |]]; try discriminate;
        injection H as <-; exact Hstore.
    + injection H as <-. left. reflexivity.
    + discriminate.
Qed.

(** X13. The refresh button never shows its error text.  When the storage
    can be accessed the listener ends with the text "Updated!" and the
    timer that restores the button, also when [initialize] has put the
    error message or the API key warning on the page; when the storage
    cannot be accessed, [removeItem] throws before the [try] statement:
    the button stays disabled on "Refreshing..." and the manager keeps its
    cache. *)
Theorem refresh_button_never_reports_an_error (cfg : config)
    (cache : option snapshot) (now : Z) (net : network) (ls : localStorage)
    (pg : page) (c : click) :
  onRefreshClick parseFloat cfg cache now net ls pg = Return c ->
  shown c <> ErrorLabel /\
  (if accessible ls
   then shown c = Updated /\ resets c = true /\ cache_after c = None /\
        rejected c = None
   else shown c = Refreshing /\ resets c = false /\ cache_after c = cache /\
        rejected c = Some SecurityError).
Proof.
  unfold onRefreshClick, removeItem. intro H.
  destruct (accessible ls).
  - destruct (initialize parseFloat cfg None now net _ pg) as [s | e |] eqn:E.
    + injection H as <-. simpl. repeat split; auto. discriminate.
    + exfalso. exact (initialize_never_throws _ _ _ _ _ _ _ E).
    + discriminate.
  - injection H as <-. simpl. repeat split; auto. discriminate.
Qed.

End PageProperties.

(** ** The trend *)

Lemma digits_before_point (whole fraction : string) (d : Decimal.uint) :
  NilEmpty.uint_of_string whole = Some d ->
  before_point (whole ++ String "."%char fraction) = Some (whole, fraction).
Proof.
  revert d. induction whole as [| c whole IH]; intros d H; simpl in *.
  - reflexivity.
  - destruct (NilEmpty.uint_of_string whole) as [d' |] eqn:E;
      [ | discriminate ].
    rewrite (IH d' eq_refl).
    apply uint_of_char_spec in H.
    destruct H as [[-> _] | [[-> _] | [[-> _] | [[-> _] | [[-> _]
                | [[-> _] | [[-> _] | [[-> _] | [[-> _] | [-> _]]]]]]]]]];
      reflexivity.
Qed.

Lemma decimal_digits (n : Z) :
  NilEmpty.uint_of_string (decimal n) = Some (N.to_uint (Z.to_N n)) /\
  NilZero.uint_of_string (decimal n) = Some (N.to_uint (Z.to_N n)).
Proof.
  assert (Hnn : N.to_uint (Z.to_N n) <> Decimal.Nil).
  { destruct (Z.to_N n); simpl; [ discriminate | ].
    apply DecimalPos.Unsigned.to_uint_nonnil. }
  pose proof (NilZero.usu _ Hnn) as H. unfold decimal.
  split; [ | exact H ].
  unfold NilZero.uint_of_string in H.
  destruct (NilZero.string_of_uint (N.to_uint (Z.to_N n))); [ discriminate | ].
  exact H.
Qed.

Lemma parse_uint_decimal (n : Z) : 0 <= n -> parse_uint (decimal n) = Some n.
Proof.
  intro Hn. unfold parse_uint. rewrite (proj2 (decimal_digits n)).
  rewrite DecimalN.Unsigned.of_to, Z2N.id by exact Hn. reflexivity.
Qed.

Lemma decimal_not_signed (n : Z) (rest : string) :
  decimal n <> String "-"%char rest.
Proof.
  intro H. pose proof (proj1 (decimal_digits n)) as Hd. rewrite H in Hd.
  simpl in Hd. destruct (NilEmpty.uint_of_string rest); discriminate.
Qed.

(** The two digits after the point. *)
Lemma fraction_digits (k : Z) :
  0 <= k < 100 ->
  String.length (decimal (k / 10) ++ decimal (k mod 10))%string = 2%nat /\
  parse_uint (decimal (k / 10) ++ decimal (k mod 10))%string = Some k.
Proof.
  intro Hk.
  assert (Hall : forallb
                   (fun i =>
                      let k := Z.of_nat i in
                      Nat.eqb (String.length
                                 (decimal (k / 10) ++ decimal (k mod 10))%string)
                              2 &&
                      match parse_uint
                              (decimal (k / 10) ++ decimal (k mod 10))%string
                      with
                      | Some k' => k' =? k
                      | None => false
                      end)
                   (seq 0 100) = true) by (vm_compute; reflexivity).
  rewrite forallb_forall in Hall.
  specialize (Hall (Z.to_nat k)).
  rewrite Z2Nat.id in Hall by lia.
  assert (Hin : In (Z.to_nat k) (seq 0 100)) by (apply in_seq; lia).
  apply Hall in Hin. apply andb_true_iff in Hin as [Hlen Hparse].
  apply Nat.eqb_eq in Hlen. split; [ exact Hlen | ].
  destruct (parse_uint _) as [k' |]; [ | discriminate ].
  apply Z.eqb_eq in Hparse. congruence.
Qed.

Lemma parse_magnitude_fixed2 (h : Z) :
  0 <= h -> parse_magnitude (fixed2_text false h) = Some h.
Proof.
  intro Hh. unfold fixed2_text, parse_magnitude. cbn [append].
  rewrite (digits_before_point _ _ _ (proj1 (decimal_digits (h / 100)))).
  assert (Hk : 0 <= h mod 100 < 100) by (apply Z.mod_pos_bound; lia).
  replace (h mod 10) with ((h mod 100) mod 10)
    by (Z.div_mod_to_equations; lia).
  destruct (fraction_digits (h mod 100) Hk) as [Hlen Hparse].
  rewrite Hlen, Hparse. cbn [Nat.eqb].
  rewrite parse_uint_decimal by (apply Z.div_pos; lia).
  f_equal. pose proof (Z.div_mod h 100 ltac:(lia)). lia.
Qed.

(** Reading back what [toFixed(2)] printed gives the hundredths printed,
    with their sign. *)
Lemma parse_fixed2_text (negative : bool) (h : Z) :
  0 <= h ->
  parse_fixed2 (fixed2_text negative h) = Some (if negative then - h else h).
Proof.
  intro Hh. destruct negative.
  - change (fixed2_text true h)
      with (String "-"%char (fixed2_text false h)).
    unfold parse_fixed2. rewrite parse_magnitude_fixed2 by exact Hh.
    reflexivity.
  - unfold parse_fixed2.
    destruct (fixed2_text false h) as [| c rest] eqn:E;
      [ rewrite <- E; apply parse_magnitude_fixed2; exact Hh | ].
    destruct (Ascii.eqb c "-"%char) eqn:Ec.
    + apply Ascii.eqb_eq in Ec. subst c. exfalso.
      unfold fixed2_text in E. simpl in E.
      destruct (decimal (h / 100)) as [| c' r'] eqn:Ed.
      * pose proof (proj1 (decimal_digits (h / 100))) as Hd.
        pose proof (proj2 (decimal_digits (h / 100))) as Hz.
        rewrite Ed in Hz. discriminate.
      * simpl in E. injection E as -> _.
        exact (decimal_not_signed _ _ Ed).
    + rewrite <- E.
      assert (Hgoal : parse_magnitude (fixed2_text false h) = Some h)
        by (apply parse_magnitude_fixed2; exact Hh).
      rewrite E in *.
      destruct c as [[|] [|] [|] [|] [|] [|] [|] [|]];
        try exact Hgoal; discriminate.
Qed.

Lemma goalsPerGame_of_encode (r : RankedPlayer) :
  prop (encode r) "goalsPerGame" = Return (goalsPerGame r).
Proof. reflexivity. Qed.

(** X14. The trend of a leaderboard record is decided by its goals per
    game as printed with two decimals, so the bands begin half a hundredth
    above 0.8, 0.5 and 0.3: the percentage is 25 above 0.805 goals per
    game, 15 between 0.505 and 0.805, 8 between 0.305 and 0.505, and 5
    below 0.305 and for a record without appearances; the direction is
    always "up". *)
Theorem trend_follows_the_printed_rate (player : PlayerRecord)
    (r : RankedPlayer) (g n : Z) :
  derive player = Return r ->
  goals player = VNum g ->
  appearances player = VNum n ->
  0 <= g -> 200 * g < 2 ^ 53 ->
  exists pct,
    calculateTrend (encode r) = Return (up pct) /\
    (n <= 0 -> pct = 5) /\
    (0 < n -> 161 * n < 200 * g -> pct = 25) /\
    (0 < n -> 101 * n < 200 * g -> 200 * g < 161 * n -> pct = 15) /\
    (0 < n -> 61 * n < 200 * g -> 200 * g < 101 * n -> pct = 8) /\
    (0 < n -> 200 * g < 61 * n -> pct = 5).
Proof.
  intros Hderive Hg Hn Hg0 Hsmall.
  apply derive_Return in Hderive
    as [g' [a' [n' [_ [Hg' [_ [Hn' [_ Hrate]]]]]]]].
  rewrite Hg in Hg'. injection Hg' as <-.
  rewrite Hn in Hn'. injection Hn' as <-.
  unfold calculateTrend. rewrite goalsPerGame_of_encode, Hrate. cbn [bind].
  destruct (0 <? n) eqn:Epos.
  - apply Z.ltb_lt in Epos.
    destruct (toFixed2_nearest g n Hg0 Epos Hsmall) as [h [Htext Hnear]].
    assert (Hh : 0 <= h) by nia.
    unfold rate_hundredths. rewrite Htext, (parse_fixed2_text false h Hh).
    cbn [bind].
    destruct (80 <? h) eqn:E80;
      [ | destruct (50 <? h) eqn:E50; [ | destruct (30 <? h) eqn:E30 ] ];
      rewrite ?Z.ltb_lt, ?Z.ltb_ge in *;
      eexists; (split; [ reflexivity | ]);
      repeat split; intros; try reflexivity; exfalso; nia.
  - apply Z.ltb_ge in Epos. simpl. exists 5.
    split; [ reflexivity | ]. repeat split; intros; try reflexivity; lia.
Qed.

(** ** The proxy function *)

Lemma given_Some (s : option string) :
  given s = true -> exists text, s = Some text /\ text <> "".
Proof.
  destruct s as [text |]; simpl; intro H; [ | discriminate ].
  exists text. split; [ reflexivity | ].
  intros ->. discriminate.
Qed.

(** X15. The proxy sends at most one request upstream, and only for a GET
    with a configured key and an endpoint parameter.  The request carries
    the key of the environment, goes to the address made of the API's base
    and the endpoint text, and forwards the league and the season, in this
    order, when they are given and not empty, and no other parameter. *)
Theorem proxy_forwards_only_checked_requests (ev : event)
    (API_FOOTBALL_KEY : option string) (fetch : upstream -> response)
    (req : upstream) :
  In req (snd (handler ev API_FOOTBALL_KEY fetch)) ->
  snd (handler ev API_FOOTBALL_KEY fetch) = [req] /\
  httpMethod ev = "GET" /\
  (exists k, API_FOOTBALL_KEY = Some k /\ k <> "" /\ key_header req = k) /\
  (exists endpoint,
      query ev "endpoint" = Some endpoint /\ endpoint <> "" /\
      url_text req
      = ("https://v3.football.api-sports.io/" ++ endpoint)%string) /\
  appended req = optional_param "league" (query ev "league") ++
                 optional_param "season" (query ev "season").
Proof.
  unfold handler.
  destruct (String.eqb (httpMethod ev) "GET") eqn:Hm; cbn [negb];
    [ | intros [] ].
  destruct (given API_FOOTBALL_KEY) eqn:Hk; cbn [negb]; [ | intros [] ].
  destruct (given (query ev "endpoint")) eqn:He; cbn [negb]; [ | intros [] ].
  cbn [snd]. intros [<- | []].
  apply String.eqb_eq in Hm.
  apply given_Some in Hk as [k [-> Hk]].
  apply given_Some in He as [endpoint [He Hne]]. rewrite He.
  split; [ reflexivity | ]. split; [ exact Hm | ].
  split; [ exists k; auto | ]. split; [ exists endpoint; auto | reflexivity ].
Qed.

(** X16. The status of the proxy's response: 405 exactly for a method
    other than GET, whatever else is wrong; otherwise 400 exactly when the
    key is configured and the endpoint is missing; 200 exactly when the
    upstream answered with a status from 200 to 299 and a JSON body, which
    the response then carries unchanged; and 500 in every other case, so
    that an upstream status such as 404 or 429 reaches the client as 500. *)
Theorem proxy_status_table (ev : event) (API_FOOTBALL_KEY : option string)
    (fetch : upstream -> response) :
  let r := fst (handler ev API_FOOTBALL_KEY fetch) in
  (statusCode r = 405 <-> httpMethod ev <> "GET") /\
  (statusCode r = 400 <->
   httpMethod ev = "GET" /\ given API_FOOTBALL_KEY = true /\
   given (query ev "endpoint") = false) /\
  (statusCode r = 200 <->
   exists req status data,
     snd (handler ev API_FOOTBALL_KEY fetch) = [req] /\
     fetch req = Answered status (Some data) /\
     response_ok status = true /\ body r = DataBody data) /\
  (statusCode r = 200 \/ statusCode r = 400 \/
   statusCode r = 405 \/ statusCode r = 500).
Proof.
  unfold handler.
  destruct (String.eqb (httpMethod ev) "GET") eqn:Hm; cbn [negb].
  - apply String.eqb_eq in Hm.
    destruct (given API_FOOTBALL_KEY) eqn:Hk; cbn [negb].
    + destruct (given (query ev "endpoint")) eqn:He; cbn [negb].
      * cbn [fst snd].
        set (req := {| url_text := _; appended := _; key_header := _ |}).
        destruct (fetch req) as [| status [data |]] eqn:Hf;
          [ | destruct (response_ok status) eqn:Hok
            | destruct (response_ok status) eqn:Hok ];
          cbn [statusCode body];
          (split; [ split; [ discriminate | congruence ] | ]);
          (split; [ split; [ discriminate | intros [_ [_ H]]; discriminate ]
                  | ]);
          (split; [ | auto ]).
        -- split; [ discriminate | ].
           intros [req' [st [d [Hreq [Hf' _]]]]].
           injection Hreq as <-. congruence.
        -- split; [ intros _; exists req, status, data; auto | reflexivity ].
        -- split; [ discriminate | ].
           intros [req' [st [d [Hreq [Hf' [Hok' _]]]]]].
           injection Hreq as <-. rewrite Hf in Hf'. injection Hf' as <- <-.
           congruence.
        -- split; [ discriminate | ].
           intros [req' [st [d [Hreq [Hf' _]]]]].
           injection Hreq as <-. congruence.
        -- split; [ discriminate | ].
           intros [req' [st [d [Hreq [Hf' _]]]]].
           injection Hreq as <-. congruence.
      * cbn [fst snd statusCode].
        split; [ split; [ discriminate | congruence ] | ].
        split; [ split; auto | ].
        split; [ | auto ].
        split; [ discriminate | intros [req [st [d [H _]]]]; discriminate ].
    + cbn [fst snd statusCode].
      split; [ split; [ discriminate | congruence ] | ].
      split; [ split; [ discriminate | intros [_ [H _]]; discriminate ] | ].
      split; [ | auto ].
      split; [ discriminate | intros [req [st [d [H _]]]]; discriminate ].
  - apply String.eqb_neq in Hm. cbn [fst snd statusCode].
    split; [ split; auto | ].
    split; [ split; [ discriminate | intros [H _]; contradiction ] | ].
    split; [ | auto ].
    split; [ discriminate | intros [req [st [d [H _]]]]; discriminate ].
Qed.

(** X17. The proxy sets the header [Access-Control-Allow-Origin] exactly
    on the responses for which it asked the upstream: the answers 405, 400
    and the 500 of the missing key carry no such header. *)
Theorem proxy_cors_only_after_fetch (ev : event)
    (API_FOOTBALL_KEY : option string) (fetch : upstream -> response) :
  header "Access-Control-Allow-Origin" (fst (handler ev API_FOOTBALL_KEY fetch))
  = match snd (handler ev API_FOOTBALL_KEY fetch) with
    | [] => None
    | _ :: _ => Some "*"
    end.
Proof.
  unfold handler, header.
  destruct (String.eqb (httpMethod ev) "GET"); cbn [negb]; [ | reflexivity ].
  destruct (given API_FOOTBALL_KEY); cbn [negb]; [ | reflexivity ].
  destruct (given (query ev "endpoint")); cbn [negb]; [ | reflexivity ].
  cbn [fst snd].
  destruct (fetch _) as [| status [data |]];
    try destruct (response_ok status); reflexivity.
Qed.

(** ** What an aggregation can throw *)

Lemma forEach_items_throws {S : Type} (f : S -> value -> result S)
    (items : list value) :
  (forall s item e, f s item = Throw e -> e = TypeError) ->
  forall s e, forEach_items f items s = Throw e -> e = TypeError.
Proof.
  intro Hf. induction items as [| item items IH]; intros s e H; simpl in H.
  - discriminate.
  - destruct (f s item) as [s' | e' |] eqn:E; simpl in H.
    + eapply IH; eauto.
    + injection H as <-. eapply Hf; eauto.
    + discriminate.
Qed.

Lemma forEach_throws {S : Type} (f : S -> value -> result S) (feed : value) :
  (forall s item e, f s item = Throw e -> e = TypeError) ->
  forall s e, forEach feed f s = Throw e -> e = TypeError.
Proof.
  intros Hf s e H. destruct feed; simpl in H;
    try (injection H as <-; reflexivity).
  eapply forEach_items_throws; eauto.
Qed.

Lemma map_result_derive_no_throw (l : list PlayerRecord) (e : exn) :
  map_result derive l <> Throw e.
Proof.
  induction l as [| p l IH]; simpl; [ discriminate | ].
  unfold derive at 1.
  destruct (goals p); try discriminate.
  destruct (assists p); try discriminate.
  destruct (appearances p); try discriminate.
  destruct (safe n && safe n0 && safe n1 && safe (n + n0)); try discriminate.
  simpl. destruct (map_result derive l) as [rs | e0 |]; simpl;
    try discriminate.
  intro H. injection H as ->. exact (IH eq_refl).
Qed.

Section Throws.

Variable parseFloat : value -> value.

Lemma mergeFeeds_throws (leagueName : string) (scorers assists_feed : value)
    (m : PlayerMap) (e : exn) :
  mergeFeeds parseFloat leagueName scorers assists_feed m = Throw e ->
  e = TypeError.
Proof.
  unfold mergeFeeds. intro H.
  destruct (forEach scorers (processScorer parseFloat leagueName) m)
    as [m1 | e1 |] eqn:E1; simpl in H.
  - eapply forEach_throws; [ | exact H ].
    intros s item e0 H0.
    destruct (processAssist_cases s item) as [[m' Hm'] | Hm']; congruence.
  - injection H as <-. eapply forEach_throws; [ | exact E1 ].
    intros s item e0 H0.
    destruct (processScorer_cases parseFloat leagueName s item)
      as [[m' Hm'] | Hm']; congruence.
  - discriminate.
Qed.

Lemma forLeagues_throws (cfg : config) (net : network)
    (entries : list (string * Z)) :
  forall m e,
    forLeagues parseFloat cfg net entries m = Throw e -> e = TypeError.
Proof.
  induction entries as [| [leagueName leagueId] entries IH];
    intros m e H; simpl in H.
  - discriminate.
  - destruct (getTopScorers_ok cfg net leagueId) as [scorers Hs].
    destruct (getTopAssists_ok cfg net leagueId) as [assists_feed Ha].
    rewrite Hs, Ha in H. cbn [bind] in H.
    destruct (mergeFeeds parseFloat leagueName scorers assists_feed m)
      as [m1 | e1 |] eqn:E; cbn [bind] in H.
    + eapply IH; eauto.
    + injection H as <-. eapply mergeFeeds_throws; eauto.
    + discriminate.
Qed.

(** X18. [getAllPlayers] throws nothing but a [TypeError]: a failure of
    the network never leaves it as an exception, only a feed that is not
    an array or an entry that lacks a block does; and when it throws it has
    written nothing to the storage. *)
Theorem aggregation_throws_only_type_errors (cfg : config)
    (cache : option snapshot) (now : Z) (net : network) (ls : localStorage)
    (e : exn) :
  outcome (getAllPlayers parseFloat cfg cache now net ls) = Throw e ->
  e = TypeError /\
  storage (getAllPlayers parseFloat cfg cache now net ls) = ls.
Proof.
  assert (Hfetch :
    outcome (fetchAllPlayers parseFloat cfg now net ls) = Throw e ->
    e = TypeError /\ storage (fetchAllPlayers parseFloat cfg now net ls) = ls).
  { unfold fetchAllPlayers.
    destruct (forLeagues parseFloat cfg net (LEAGUES cfg) [])
      as [allPlayers | e1 |] eqn:E; cbn [bind].
    - unfold rankPlayers.
      destruct (map_result derive (map_values allPlayers))
        as [playersArray | e2 |] eqn:E2; cbn [bind outcome storage];
        try discriminate.
      exfalso. exact (map_result_derive_no_throw _ _ E2).
    - cbn [outcome storage]. intro H. injection H as <-.
      split; [ | reflexivity ]. eapply forLeagues_throws; eauto.
    - discriminate. }
  unfold getAllPlayers. destruct cache as [data |]; [ | exact Hfetch ].
  destruct (truthy (players data)); [ discriminate | exact Hfetch ].
Qed.

(** X19. Where the assist feed has several entries for a player of the
    map, the last one with a truthy count decides: the assist loop leaves
    the record with the assists that going through the entries in order
    gives, each truthy count for the player replacing the one before. *)
Theorem assist_feed_last_truthy_count_wins (items : list value) (x : value) :
  forall (m m' : PlayerMap) (r : PlayerRecord),
    forEach_items processAssist items m = Return m' ->
    map_get m x = Some r ->
    map_get m' x = Some (set_assists r (assists_after items x (assists r))).
Proof. exact (assists_loop_exact items x). Qed.

End Throws.

(** ** Cache hits *)

(** X21. [loadCache] returns a snapshot exactly when the storage can be
    read, the stored text parses to that snapshot, and its timestamp is a
    number less than [CACHE_DURATION] before the clock; a timestamp in the
    future passes, so a snapshot stamped ahead of the clock stays valid
    until the clock has passed it by [CACHE_DURATION]. *)
Theorem loadCache_hit (cfg : config) (now : Z) (ls : localStorage)
    (data : snapshot) :
  loadCache cfg now ls = Some data <->
  accessible ls = true /\ ynwa_stats_cache ls = Parsed data /\
  exists t, timestamp data = Some t /\ now < t + CACHE_DURATION cfg.
Proof.
  unfold loadCache, loadCache_try, getItem, fresh. split.
  - destruct (accessible ls); [ | discriminate ]. simpl.
    destruct (ynwa_stats_cache ls) as [| | | | stored_data];
      try discriminate.
    destruct (timestamp stored_data) as [t |] eqn:Et; [ | discriminate ].
    destruct (now - t <? CACHE_DURATION cfg) eqn:E; [ | discriminate ].
    intro H. injection H as <-. apply Z.ltb_lt in E.
    repeat split; auto. exists t. split; [ exact Et | lia ].
  - intros [Hacc [Hstored [t [Ht Hage]]]].
    rewrite Hacc. simpl. rewrite Hstored, Ht.
    replace (now - t <? CACHE_DURATION cfg) with true
      by (symmetry; apply Z.ltb_lt; lia).
    reflexivity.
Qed.

(** ** The further properties at the example data *)

Lemma one_record_per_identifier_witness :
  distinct_keys after_39_140 = true /\
  option_map id (map_get after_39_140 (VNum 4)) = Some (VNum 4).
Proof.
  destruct (one_record_per_identifier parse_rating CONFIG example_network
              (LEAGUES CONFIG) after_39_140 eq_refl) as [Hdistinct Hid].
  split; [ exact Hdistinct | ].
  destruct (map_get after_39_140 (VNum 4)) as [r |] eqn:E;
    [ | discriminate E ].
  simpl. f_equal. exact (Hid (VNum 4) r E).
Defined.

Lemma global_mapping_lists_scorers_witness :
  map_has after_39_140 (VNum 4) = true /\
  map_has after_39_140 (VNum 3) = false.
Proof.
  split.
  - rewrite (global_mapping_lists_scorers parse_rating CONFIG example_network
               (LEAGUES CONFIG) after_39_140 (VNum 4) eq_refl).
    reflexivity.
  - rewrite (global_mapping_lists_scorers parse_rating CONFIG example_network
               (LEAGUES CONFIG) after_39_140 (VNum 3) eq_refl).
    reflexivity.
Defined.

Lemma records_are_defaulted_and_labelled_witness :
  defaulted (assists d_nine) = true /\
  In (league d_nine) ["PREMIER LEAGUE"; "LA LIGA"].
Proof.
  destruct (records_are_defaulted_and_labelled parse_rating CONFIG
              example_network (LEAGUES CONFIG) after_39_140 (VNum 4) d_nine
              eq_refl eq_refl) as [_ [Hassists [_ Hlabel]]].
  split; [ exact Hassists | exact Hlabel ].
Defined.

Lemma league_of_first_listing_witness :
  exists r, map_get after_39_140 (VNum 1) = Some r /\
            league r = "PREMIER LEAGUE".
Proof.
  exact (league_of_first_listing parse_rating CONFIG example_network
           [] [("LA_LIGA", 140)] "PREMIER_LEAGUE" 39 after_39_140 (VNum 1)
           eq_refl eq_refl eq_refl).
Defined.





Lemma outage_is_cached_witness :
  outcome (getAllPlayers parse_rating keyed_config None 1000 offline
             empty_storage) = Return (VArr []) /\
  getAllPlayers parse_rating keyed_config
    (constructor keyed_config 2000
       (storage (getAllPlayers parse_rating keyed_config None 1000 offline
                   empty_storage)))
    2001 example_network empty_storage
  = {| outcome := Return (VArr []); storage := empty_storage;
       requests := [] |}.
Proof.
  apply (outage_is_cached parse_rating keyed_config 1000 2000 2001 offline
           example_network empty_storage empty_storage);
    try reflexivity.
  intros entry _. exists NetworkError, NetworkError. split; reflexivity.
Defined.

Lemma unrenderable_snapshot_shows_the_error_witness :
  pageLoad parse_rating keyed_config 1000 1001 example_network
    storage_with_number full_page
  = Return {| view := set_grid full_page ErrorMessage;
              store := storage_with_number;
              sent := [] |}.
Proof.
  exact (unrenderable_snapshot_shows_the_error parse_rating keyed_config
           1000 1001 example_network storage_with_number full_page Static
           {| timestamp := Some 0; players := VNum 5 |}
           eq_refl eq_refl eq_refl eq_refl eq_refl).
Defined.

Lemma refresh_discards_the_old_snapshot_witness :
  exists s,
    refresh parse_rating keyed_config (Some snapshot_saved_at_0) 5000
      malformed_network storage_saved_at_0 full_page = Return s /\
    (ynwa_stats_cache (store s) = Missing \/
     exists v, ynwa_stats_cache (store s)
               = Parsed {| timestamp := Some 5000;
                           players := json_roundtrip v |}).
Proof.
  eexists. split; [ vm_compute; reflexivity | ].
  apply (refresh_discards_the_old_snapshot parse_rating keyed_config
           (Some snapshot_saved_at_0) 5000 malformed_network
           storage_saved_at_0 full_page).
  vm_compute. reflexivity.
Defined.

Lemma refresh_button_never_reports_an_error_witness :
  exists c,
    onRefreshClick parse_rating keyed_config None 5000 malformed_network
      storage_saved_at_0 full_page = Return c /\
    option_map view (left_behind c)
    = Some (set_grid full_page ErrorMessage) /\
    shown c = Updated.
Proof.
  eexists. split; [ vm_compute; reflexivity | ].
  split; [ reflexivity | ].
  refine (proj1 (proj2 (refresh_button_never_reports_an_error parse_rating
                          keyed_config None 5000 malformed_network
                          storage_saved_at_0 full_page _ _))).
  vm_compute. reflexivity.
Defined.

Lemma trend_follows_the_printed_rate_witness :
  calculateTrend (encode third_ranked) = Return (up 25).
Proof.
  destruct (trend_follows_the_printed_rate d_nine third_ranked 7 3
              eq_refl eq_refl eq_refl ltac:(lia) ltac:(reflexivity))
    as [pct [Htrend [_ [H25 _]]]].
  rewrite Htrend. f_equal. f_equal. apply H25; lia.
Defined.

Lemma proxy_forwards_only_checked_requests_witness :
  snd (handler scorers_event (Some "server-side-key") upstream_answers)
  = [scorers_upstream] /\
  key_header scorers_upstream = "server-side-key".
Proof.
  destruct (proxy_forwards_only_checked_requests scorers_event
              (Some "server-side-key") upstream_answers scorers_upstream
              (or_introl eq_refl)) as [Hsent [_ [[k [Hk [_ Hheader]]] _]]].
  split; [ exact Hsent | ].
  injection Hk as <-. exact Hheader.
Defined.

Lemma proxy_status_table_witness :
  statusCode (fst (handler scorers_event (Some "server-side-key")
                     upstream_answers)) = 200 /\
  statusCode (fst (handler {| httpMethod := "POST";
                              queryStringParameters := None |}
                     None upstream_answers)) = 405.
Proof.
  split.
  - apply (proj1 (proj2 (proj2 (proxy_status_table scorers_event
                                  (Some "server-side-key") upstream_answers)))).
    exists scorers_upstream, 200, (VObj [("response", VArr scorers_39)]).
    repeat split.
  - apply (proj1 (proxy_status_table
                    {| httpMethod := "POST"; queryStringParameters := None |}
                    None upstream_answers)).
    discriminate.
Defined.

Lemma aggregation_throws_only_type_errors_witness :
  outcome (getAllPlayers parse_rating CONFIG None 0 malformed_network
             storage_saved_at_0) = Throw TypeError /\
  storage (getAllPlayers parse_rating CONFIG None 0 malformed_network
             storage_saved_at_0) = storage_saved_at_0.
Proof.
  assert (H : outcome (getAllPlayers parse_rating CONFIG None 0
                         malformed_network storage_saved_at_0)
              = Throw TypeError) by reflexivity.
  split; [ exact H | ].
  exact (proj2 (aggregation_throws_only_type_errors parse_rating CONFIG None 0
                  malformed_network storage_saved_at_0 TypeError H)).
Defined.

Lemma assist_feed_last_truthy_count_wins_witness :
  option_map assists (map_get merged_repeated (VNum 1)) = Some (VNum 6).
Proof.
  destruct (map_get merged_39 (VNum 1)) as [r |] eqn:E;
    [ | discriminate E ].
  rewrite (assist_feed_last_truthy_count_wins assists_repeated (VNum 1)
             merged_39 merged_repeated r eq_refl E).
  vm_compute in E. injection E as <-. reflexivity.
Defined.

Lemma loadCache_hit_witness :
  loadCache CONFIG 1000 storage_saved_at_0 = Some snapshot_saved_at_0 /\
  loadCache CONFIG (24 * 60 * 60 * 1000) storage_saved_at_0 = None.
Proof.
  split.
  - apply (proj2 (loadCache_hit CONFIG 1000 storage_saved_at_0
                    snapshot_saved_at_0)).
    split; [ reflexivity | ]. split; [ reflexivity | ].
    exists 0. split; [ reflexivity | reflexivity ].
  - destruct (loadCache CONFIG (24 * 60 * 60 * 1000) storage_saved_at_0)
      as [data |] eqn:E; [ | reflexivity ].
    apply (proj1 (loadCache_hit CONFIG _ storage_saved_at_0 data)) in E.
    destruct E as [_ [Hstored [t [Ht Hage]]]].
    injection Hstored as <-. injection Ht as <-.
    vm_compute in Hage. discriminate Hage.
Defined.

(** ** Well-formed feeds *)

Section WellFormedMerge.

Variable parseFloat : value -> value.



End WellFormedMerge.

